(** * ReactiveTable: a shallow embedding of [src/index.js]

    The component is a LitElement with two string properties ([data] and
    [schema]).  [willUpdate] parses them with [JSON.parse], [render] builds
    the table and [_handleToggleExpandClick] toggles CSS classes on the
    rendered cells.  The embedding follows that order:

    - [JSON]: the values [JSON.parse] produces, and [JSON.parse] itself;
    - [JS]: property reads on parsed objects and the [??] operator;
    - [DOM]: the rendered tree (cells with a class list, a click listener
      and a child), [classList.toggle];
    - [Parser]: the properties of the element and [willUpdate];
    - [Renderer]: [render], [_getHeaders], [_getRows];
    - [Controller]: [_handleToggleExpandClick] and click dispatch. *)

From Stdlib Require Import Ascii String NArith.
From stdpp Require Import base decidable option list strings gmap sets pretty.

Set Warnings "-register-all,-clear-no-such-hyp".
Local Open Scope string_scope.

(** ** JSON values and [JSON.parse] *)

Module JSON.

(** A number is kept as the literal it was written with: the component
    never computes with the numbers of a row, it only displays them. *)
Inductive json : Type :=
  | JNull
  | JBool (b : bool)
  | JNum (literal : string)
  | JStr (s : string)
  | JArr (elements : list json)
  | JObj (members : list (string * json)).

(** *** Lexical level *)

Inductive token : Type :=
  | LBrace | RBrace | LBracket | RBracket | Colon | Comma
  | TStr (s : string)
  | TNum (literal : string)
  | TTrue | TFalse | TNull.

(** A character of a string literal: a byte of the text itself, or the
    UTF-16 code unit written by a [\uXXXX] escape. *)
Inductive strchar : Type :=
  | Raw (a : ascii)
  | Esc (u : N).

Inductive mode : Type :=
  | Idle
  | InWord (acc : list ascii)
  | InNumber (acc : list ascii)
  | InString (acc : list strchar)
  | InEscape (acc : list strchar)
  | InUnicode (acc : list strchar) (digits : list ascii).

Definition code (a : ascii) : N := N_of_ascii a.

Definition is_ws (a : ascii) : bool :=
  match code a with
  | 32 | 9 | 10 | 13 => true
  | _ => false
  end%N.

Definition is_digit (a : ascii) : bool := (48 <=? code a)%N && (code a <=? 57)%N.
Definition is_digit19 (a : ascii) : bool := (49 <=? code a)%N && (code a <=? 57)%N.
Definition is_lower (a : ascii) : bool := (97 <=? code a)%N && (code a <=? 122)%N.

(** The characters a number literal is made of. *)
Definition is_numchar (a : ascii) : bool :=
  is_digit a ||
  match a with
  | "-" | "+" | "." | "e" | "E" => true
  | _ => false
  end%char.

Definition hex_value (a : ascii) : option N :=
  let c := code a in
  if (48 <=? c)%N && (c <=? 57)%N then Some (c - 48)%N
  else if (97 <=? c)%N && (c <=? 102)%N then Some (c - 87)%N
  else if (65 <=? c)%N && (c <=? 70)%N then Some (c - 55)%N
  else None.

Fixpoint hex_number (acc : N) (ds : list ascii) : option N :=
  match ds with
  | [] => Some acc
  | d :: ds => match hex_value d with
               | Some v => hex_number (acc * 16 + v)%N ds
               | None => None
               end
  end.

Fixpoint skip_digits (s : list ascii) : list ascii :=
  match s with
  | d :: r => if is_digit d then skip_digits r else s
  | [] => []
  end.

Definition starts_with_digit (s : list ascii) : bool :=
  match s with
  | d :: _ => is_digit d
  | [] => false
  end.

(** number = [-] int [frac] [exp] *)
Definition valid_exp (s : list ascii) : bool :=
  match s with
  | [] => true
  | c :: r =>
      match c with
      | "e" | "E" =>
          let r' := match r with
                    | s :: r' => match s with "+" | "-" => r' | _ => r end
                    | [] => r
                    end in
          starts_with_digit r' &&
          match skip_digits r' with [] => true | _ => false end
      | _ => false
      end
  end%char.

Definition valid_frac (s : list ascii) : bool :=
  match s with
  | c :: r =>
      match c with
      | "." => starts_with_digit r && valid_exp (skip_digits r)
      | _ => valid_exp s
      end
  | [] => true
  end%char.

Definition valid_int (s : list ascii) : bool :=
  match s with
  | c :: r =>
      match c with
      | "0" => valid_frac r
      | _ => is_digit19 c && valid_frac (skip_digits r)
      end
  | [] => false
  end%char.

Definition valid_number (s : list ascii) : bool :=
  match s with
  | c :: r => match c with "-" => valid_int r | _ => valid_int s end
  | [] => false
  end%char.

Definition number_token (lexeme : list ascii) : option token :=
  if valid_number lexeme then Some (TNum (string_of_list_ascii lexeme)) else None.

Definition word_token (lexeme : list ascii) : option token :=
  let w := string_of_list_ascii lexeme in
  if String.eqb w "true" then Some TTrue
  else if String.eqb w "false" then Some TFalse
  else if String.eqb w "null" then Some TNull
  else None.

(** UTF-8 bytes of a code point. *)
Definition byte (n : N) : ascii := ascii_of_N n.

Definition utf8 (cp : N) : list ascii :=
  if (cp <? 128)%N then [byte cp]
  else if (cp <? 2048)%N then
    [byte (N.lor 192 (N.shiftr cp 6)); byte (N.lor 128 (N.land cp 63))]
  else if (cp <? 65536)%N then
    [byte (N.lor 224 (N.shiftr cp 12));
     byte (N.lor 128 (N.land (N.shiftr cp 6) 63));
     byte (N.lor 128 (N.land cp 63))]
  else
    [byte (N.lor 240 (N.shiftr cp 18));
     byte (N.lor 128 (N.land (N.shiftr cp 12) 63));
     byte (N.lor 128 (N.land (N.shiftr cp 6) 63));
     byte (N.lor 128 (N.land cp 63))].

Definition is_high_surrogate (u : N) : bool := (55296 <=? u)%N && (u <=? 56319)%N.
Definition is_low_surrogate (u : N) : bool := (56320 <=? u)%N && (u <=? 57343)%N.

(** The text of a string literal, escapes replaced, as UTF-8: an escaped
    surrogate pair is one code point. *)
Fixpoint decode (cs : list strchar) : list ascii :=
  match cs with
  | [] => []
  | Raw a :: r => a :: decode r
  | Esc hi :: r =>
      match r with
      | Esc lo :: r' =>
          if is_high_surrogate hi && is_low_surrogate lo
          then (utf8 (65536 + (hi - 55296) * 1024 + (lo - 56320))%N ++ decode r')%list
          else (utf8 hi ++ decode r)%list
      | _ => (utf8 hi ++ decode r)%list
      end
  end.

(** What a character does when no token is open. *)
Definition start (c : ascii) : option (mode * list token) :=
  if is_ws c then Some (Idle, [])
  else if is_lower c then Some (InWord [c], [])
  else if is_numchar c then Some (InNumber [c], [])
  else
    match c with
    | "{" => Some (Idle, [LBrace])
    | "}" => Some (Idle, [RBrace])
    | "[" => Some (Idle, [LBracket])
    | "]" => Some (Idle, [RBracket])
    | ":" => Some (Idle, [Colon])
    | "," => Some (Idle, [Comma])
    | "034" => Some (InString [], [])
    | _ => None
    end%char.

Definition close_then_start (t : option token) (c : ascii) : option (mode * list token) :=
  match t, start c with
  | Some t, Some (m, ts) => Some (m, t :: ts)
  | _, _ => None
  end.

Definition escape (c : ascii) : option ascii :=
  match c with
  | "034" => Some "034"
  | "\" => Some "\"
  | "/" => Some "/"
  | "b" => Some "008"
  | "f" => Some "012"
  | "n" => Some "010"
  | "r" => Some "013"
  | "t" => Some "009"
  | _ => None
  end%char.

Definition step (m : mode) (c : ascii) : option (mode * list token) :=
  match m with
  | Idle => start c
  | InWord acc =>
      if is_lower c then Some (InWord (c :: acc), [])
      else close_then_start (word_token (rev acc)) c
  | InNumber acc =>
      if is_numchar c then Some (InNumber (c :: acc), [])
      else close_then_start (number_token (rev acc)) c
  | InString acc =>
      match c with
      | "034" => Some (Idle, [TStr (string_of_list_ascii (decode (rev acc)))])
      | "\" => Some (InEscape acc, [])
      | _ => if (code c <? 32)%N then None else Some (InString (Raw c :: acc), [])
      end%char
  | InEscape acc =>
      match c with
      | "u" => Some (InUnicode acc [], [])
      | _ => match escape c with
             | Some a => Some (InString (Raw a :: acc), [])
             | None => None
             end
      end%char
  | InUnicode acc ds =>
      let ds' := (ds ++ [c])%list in
      match hex_value c with
      | None => None
      | Some _ =>
          if (length ds' =? 4)%nat then
            match hex_number 0 ds' with
            | Some u => Some (InString (Esc u :: acc), [])
            | None => None
            end
          else Some (InUnicode acc ds', [])
      end
  end.

Definition finish (m : mode) : option (list token) :=
  match m with
  | Idle => Some []
  | InWord acc => t ← word_token (rev acc); Some [t]
  | InNumber acc => t ← number_token (rev acc); Some [t]
  | InString _ | InEscape _ | InUnicode _ _ => None
  end.

Fixpoint lex (m : mode) (s : list ascii) : option (list token) :=
  match s with
  | [] => finish m
  | c :: s' =>
      match step m c with
      | Some (m', ts) => rest ← lex m' s'; Some (ts ++ rest)%list
      | None => None
      end
  end.

(** *** Grammar level: a stack of the arrays and objects still open *)

Inductive frame : Type :=
  | FArr (done : list json)
  | FObj (done : list (string * json)) (key : string).

Inductive expect : Type :=
  | Value (stack : list frame)
  | ValueOrClose (stack : list frame)
  | KeyOrClose (stack : list frame)
  | Key (done : list (string * json)) (stack : list frame)
  | ColonAfter (done : list (string * json)) (key : string) (stack : list frame)
  | After (v : json) (stack : list frame).

Definition value_token (t : token) (stack : list frame) : option expect :=
  match t with
  | TStr s => Some (After (JStr s) stack)
  | TNum n => Some (After (JNum n) stack)
  | TTrue => Some (After (JBool true) stack)
  | TFalse => Some (After (JBool false) stack)
  | TNull => Some (After JNull stack)
  | LBracket => Some (ValueOrClose stack)
  | LBrace => Some (KeyOrClose stack)
  | _ => None
  end.

Definition shift (e : expect) (t : token) : option expect :=
  match e with
  | Value stack => value_token t stack
  | ValueOrClose stack =>
      match t with
      | RBracket => Some (After (JArr []) stack)
      | _ => value_token t (FArr [] :: stack)
      end
  | KeyOrClose stack =>
      match t with
      | RBrace => Some (After (JObj []) stack)
      | TStr k => Some (ColonAfter [] k stack)
      | _ => None
      end
  | Key done stack =>
      match t with
      | TStr k => Some (ColonAfter done k stack)
      | _ => None
      end
  | ColonAfter done k stack =>
      match t with
      | Colon => Some (Value (FObj done k :: stack))
      | _ => None
      end
  | After v (FArr done :: stack) =>
      match t with
      | Comma => Some (Value (FArr (v :: done) :: stack))
      | RBracket => Some (After (JArr (rev (v :: done))) stack)
      | _ => None
      end
  | After v (FObj done k :: stack) =>
      match t with
      | Comma => Some (Key ((k, v) :: done) stack)
      | RBrace => Some (After (JObj (rev ((k, v) :: done))) stack)
      | _ => None
      end
  | After v [] => None
  end.

Fixpoint shift_all (e : expect) (ts : list token) : option json :=
  match ts with
  | [] => match e with After v [] => Some v | _ => None end
  | t :: ts' => match shift e t with
                | Some e' => shift_all e' ts'
                | None => None
                end
  end.

(** [JSON.parse(text)]: [None] stands for the thrown [SyntaxError]. *)
Definition parse (text : string) : option json :=
  ts ← lex Idle (list_ascii_of_string text); shift_all (Value []) ts.

End JSON.

Local Open Scope list_scope.

(** ** JavaScript values read by the templates *)

Module JS.
Import JSON.

(** An object as [JSON.parse] builds it: its members in the order of the
    text.  A key written twice keeps its last value. *)
Definition object : Type := list (string * json).

Fixpoint own (o : object) (k : string) : option json :=
  match o with
  | [] => None
  | (k', v) :: o' =>
      match own o' k with
      | Some w => Some w
      | None => if String.eqb k' k then Some v else None
      end
  end.

(** What a property read can give: [undefined], a parsed value, or a
    member that every object inherits from [Object.prototype]. *)
Inductive value : Type :=
  | undefined
  | of_json (j : json)
  | inherited (name : string).

Definition Object_prototype : list string :=
  [ "constructor"; "hasOwnProperty"; "isPrototypeOf"; "propertyIsEnumerable";
    "toLocaleString"; "toString"; "valueOf"; "__proto__";
    "__defineGetter__"; "__defineSetter__"; "__lookupGetter__"; "__lookupSetter__" ].

(** [o[k]] *)
Definition get (o : object) (k : string) : value :=
  match own o k with
  | Some v => of_json v
  | None => if bool_decide (k ∈ Object_prototype) then inherited k else undefined
  end.

Definition nullish (v : value) : bool :=
  match v with
  | undefined | of_json JNull => true
  | _ => false
  end.

(** [a ?? b] *)
Definition coalesce (a b : value) : value := if nullish a then b else a.

(** Truthiness of a string property: [null], [undefined] and the empty
    string are falsy. *)
Definition truthy (s : option string) : bool :=
  match s with
  | Some (String _ _) => true
  | _ => false
  end.

End JS.

(** ** The rendered tree *)

Module DOM.

Inductive node : Type :=
  | Empty
  | Text (s : string)
  | Binding (v : JS.value).

(** A [<td>]: its class list, whether [_handleToggleExpandClick] listens
    for clicks on it, and its child. *)
Record td : Type := Td {
  classList : gset string;
  onclick : bool;
  child : node
}.

(** [<table>]: the [<th>] children of the header row, the rows of the body
    and the rows of the footer. *)
Record table : Type := Table {
  thead : list node;
  tbody : list (list td);
  tfoot : list (list td)
}.

(** [classList.toggle(token)] *)
Definition toggle (token : string) (cl : gset string) : gset string :=
  if bool_decide (token ∈ cl) then cl ∖ {[ token ]} else cl ∪ {[ token ]}.

Definition toggle_class (token : string) (cell : td) : td :=
  Td (toggle token (classList cell)) (onclick cell) (child cell).

Definition has_class (token : string) (cell : td) : bool :=
  bool_decide (token ∈ classList cell).

(** [td.hidden { display: none }] *)
Definition displayed (cell : td) : bool := negb (has_class "hidden" cell).

Definition with_tbody (rows : list (list td)) (t : table) : table :=
  Table (thead t) rows (tfoot t).

End DOM.

(** ** Input parser: [constructor] and [willUpdate] *)

Module Parser.
Import JSON.

Record properties : Type := Properties {
  data : option string;
  schema : option string;
  _data : json;
  _schema : json
}.

Definition constructor : properties :=
  {| data := Some "[]"; schema := Some "[]"; _data := JArr []; _schema := JArr [] |}.

Definition set__data (v : json) (this : properties) : properties :=
  {| data := data this; schema := schema this; _data := v; _schema := _schema this |}.

Definition set__schema (v : json) (this : properties) : properties :=
  {| data := data this; schema := schema this; _data := _data this; _schema := v |}.

Definition text (s : option string) : string :=
  match s with Some s => s | None => EmptyString end.

Inductive completion : Type :=
  | Normal
  | Thrown_SyntaxError.

(** The element after the call, the properties handed to [JSON.parse] in
    call order, and how the call ended. *)
Record run : Type := Run {
  this_after : properties;
  parsed : list string;
  outcome : completion
}.

Definition willUpdate (changed : gset string) (this : properties) : run :=
  let r :=
    if bool_decide ("data" ∈ changed) && JS.truthy (data this) then
      match JSON.parse (text (data this)) with
      | Some v => Run (set__data v this) ["data"] Normal
      | None => Run this ["data"] Thrown_SyntaxError
      end
    else Run this [] Normal in
  match outcome r with
  | Thrown_SyntaxError => r
  | Normal =>
      let this := this_after r in
      if bool_decide ("schema" ∈ changed) && JS.truthy (schema this) then
        match JSON.parse (text (schema this)) with
        | Some v => Run (set__schema v this) (parsed r ++ ["schema"]) Normal
        | None => Run this (parsed r ++ ["schema"]) Thrown_SyntaxError
        end
      else r
  end.

End Parser.

(** ** Layout calculator and row renderer *)

Module Renderer.
Import JSON DOM.

(** A schema entry [{key, name, default}]. *)
Record column : Type := Column {
  key : string;
  name : string;
  default : JS.value
}.

(** A row of the dataset: an object, or an array of objects (the branch
    [Array.isArray(row)] of [_getRows]). *)
Inductive Row : Type :=
  | Plain (row : JS.object)
  | Grouped (subrows : list JS.object).

Definition isArray (row : Row) : bool :=
  match row with
  | Grouped _ => true
  | Plain _ => false
  end.

Record ReactiveTable : Type := Element {
  _data : list Row;
  _schema : list column;
  hasHiddenRows : bool;
  gridtemplate : string
}.

Definition set_hasHiddenRows (b : bool) (this : ReactiveTable) : ReactiveTable :=
  Element (_data this) (_schema this) b (gridtemplate this).

Definition set_gridtemplate (s : string) (this : ReactiveTable) : ReactiveTable :=
  Element (_data this) (_schema this) (hasHiddenRows this) s.

(** [row[h.key] ?? h.default] *)
Definition cell_value (row : JS.object) (h : column) : JS.value :=
  JS.coalesce (JS.get row (key h)) (default h).

Definition _getHeaders (this : ReactiveTable) : list node :=
  (if hasHiddenRows this then [Empty] else []) ++
  map (λ h, Text (name h)) (_schema this).

Definition subrow_cells (this : ReactiveTable) (index : nat) (subrow : JS.object) : list td :=
  Td (if bool_decide (index ≠ 0) then {[ "subrow"; "hidden" ]} else {[ "expander" ]})
     true Empty ::
  map (λ h, Td (if bool_decide (index ≠ 0) then {[ "subrow"; "hidden" ]} else ∅)
               false (Binding (cell_value subrow h)))
      (_schema this).

Definition row_cells (this : ReactiveTable) (row : Row) : list td :=
  match row with
  | Grouped subrows => concat (imap (subrow_cells this) subrows)
  | Plain row =>
      (if hasHiddenRows this then [Td ∅ false Empty] else []) ++
      map (λ h, Td ∅ false (Binding (cell_value row h))) (_schema this)
  end.

Definition _getRows (this : ReactiveTable) : list (list td) :=
  if (length (_data this) =? 0)%nat then
    [[Td {[ "nodata" ]} false (Text "There is no data to show")]]
  else
    map (row_cells this) (_data this).

Definition render (this : ReactiveTable) : ReactiveTable * table :=
  let this := set_hasHiddenRows (existsb isArray (_data this)) this in
  let this :=
    if hasHiddenRows this then
      set_gridtemplate ("1rem repeat(" +:+ pretty (length (_schema this)) +:+ ", 1fr)") this
    else
      set_gridtemplate ("repeat(" +:+ pretty (length (_schema this)) +:+ ", 1fr)") this in
  (this,
   Table (_getHeaders this) (_getRows this)
         [[Td ∅ false (Text (pretty (length (_data this)) +:+ " records"))]]).

(** The element as [willUpdate] leaves it, seen by [render].  [render]
    is modelled on datasets that are arrays of objects and of arrays of
    objects, and on schemas that are arrays of [{key, name, default}] with
    string [key] and [name]; [JSON.parse] can return other values (a
    number as a row, say), on which the templates read properties of
    primitives: those are left out. *)
Definition as_object (j : json) : option JS.object :=
  match j with
  | JObj members => Some members
  | _ => None
  end.

Definition as_row (j : json) : option Row :=
  match j with
  | JArr subrows => Grouped <$> mapM as_object subrows
  | JObj members => Some (Plain members)
  | _ => None
  end.

Definition as_dataset (j : json) : option (list Row) :=
  match j with
  | JArr rows => mapM as_row rows
  | _ => None
  end.

Definition as_string (j : option json) : option string :=
  match j with
  | Some (JStr s) => Some s
  | _ => None
  end.

Definition as_column (j : json) : option column :=
  match j with
  | JObj members =>
      k ← as_string (JS.own members "key");
      n ← as_string (JS.own members "name");
      Some (Column k n (from_option JS.of_json JS.undefined (JS.own members "default")))
  | _ => None
  end.

Definition as_schema (j : json) : option (list column) :=
  match j with
  | JArr columns => mapM as_column columns
  | _ => None
  end.

Definition element_of (p : Parser.properties) : option ReactiveTable :=
  D ← as_dataset (Parser._data p);
  S ← as_schema (Parser._schema p);
  Some (Element D S false "repeat(1, 1fr)").

End Renderer.

(** ** Expand/collapse controller *)

Module Controller.
Import DOM.

(** The handler, run for a click on the cell [target] of [row]
    ([e.target] and its [parentNode]). *)
Definition _handleToggleExpandClick (target : nat) (row : list td) : list td :=
  let subrows_toggled :=
    map (λ cell, if has_class "subrow" cell then toggle_class "hidden" cell else cell) row in
  alter (toggle_class "expanded") target subrows_toggled.

(** A click on cell [j] of body row [i]: the handler runs when that cell
    carries the listener. *)
Definition click (i j : nat) (t : table) : table :=
  match tbody t !! i ≫= (.!! j) with
  | Some cell =>
      if onclick cell
      then with_tbody (alter (_handleToggleExpandClick j) i (tbody t)) t
      else t
  | None => t
  end.

Definition clicks (events : list (nat * nat)) (t : table) : table :=
  foldl (λ t e, click e.1 e.2 t) t events.

End Controller.

(** ** Vocabulary of the statements *)

Module Spec.
Import JSON JS DOM Renderer Controller.

(** The spec's example: schema [[{key:"a",name:"A",default:"-"}]] and
    dataset [[{a:1}, [{a:2},{a:3}]]]. *)
Definition example_schema : list column := [Column "a" "A" (of_json (JStr "-"))].

Definition example_data : list Row :=
  [Plain [("a", JNum "1")]; Grouped [[("a", JNum "2")]; [("a", JNum "3")]]].

Definition example : ReactiveTable := Element example_data example_schema false "repeat(1, 1fr)".

Definition plain_example : ReactiveTable :=
  Element [Plain []] [Column "x" "X" (of_json (JStr "none"))] false "repeat(1, 1fr)".

(** The same two inputs as the texts of the [schema] and [data]
    properties; [quote] stands for the double quote between the pieces. *)
Definition quote : string := String "034"%char EmptyString.

Definition example_schema_text : string :=
  String.concat quote
    ["[{"; "key"; ":"; "a"; ","; "name"; ":"; "A"; ","; "default"; ":"; "-"; "}]"].

Definition example_data_text : string :=
  String.concat quote ["[{"; "a"; ":1},[{"; "a"; ":2},{"; "a"; ":3}]]"].

Definition example_properties : Parser.properties :=
  Parser.Properties (Some example_data_text) (Some example_schema_text) (JArr []) (JArr []).

(** The cell of the body at row [i], position [j]. *)
Definition cell_at (t : table) (i j : nat) : option td := tbody t !! i ≫= (.!! j).

(** [cell] shows [row[c.key] ?? c.default]: the value read from the row
    unless that is [undefined] or [null], the column default then. *)
Definition shows (cell : td) (row : JS.object) (c : column) : Prop :=
  (nullish (get row (key c)) = false → child cell = Binding (get row (key c))) ∧
  (nullish (get row (key c)) = true → child cell = Binding (default c)).

(** [cell] shows the member [c.key] of the row: the member itself when the
    row has it and it is not [null], the column default when the member is
    [null] or missing; a missing member whose key is the name of a member
    of [Object.prototype] is the one exception, the cell is bound to the
    inherited member then. *)
Definition shows_member (cell : td) (row : JS.object) (c : column) : Prop :=
  match own row (key c) with
  | Some JNull => child cell = Binding (default c)
  | Some v => child cell = Binding (of_json v)
  | None =>
      child cell =
      Binding (if bool_decide (key c ∈ Object_prototype) then inherited (key c)
               else default c)
  end.

(** A row without members under a column whose key every object inherits. *)
Definition inherited_key_example : ReactiveTable :=
  Element [Plain []] [Column "toString" "T" (of_json (JStr "-"))] false "repeat(1, 1fr)".

(** What one run of the handler does to the cell at position [j] of the
    row, for a click on the cell at position [target]. *)
Definition on_cell (target j : nat) (cell : td) : td :=
  let cell := if has_class "subrow" cell then toggle_class "hidden" cell else cell in
  if bool_decide (j = target) then toggle_class "expanded" cell else cell.

(** A cell as some clicks may have left it: the listener, the child and
    the [subrow] mark are those it was rendered with, and a cell without
    the mark has kept its visibility. *)
Definition evolves (cell cell' : td) : Prop :=
  onclick cell' = onclick cell ∧ child cell' = child cell ∧
  has_class "subrow" cell' = has_class "subrow" cell ∧
  (has_class "subrow" cell = false → has_class "hidden" cell' = has_class "hidden" cell).

(** Two grouped rows, one after the other. *)
Definition two_groups : ReactiveTable :=
  Element [Grouped [[("a", JNum "1")]; [("a", JNum "2")]];
           Grouped [[("a", JNum "3")]; [("a", JNum "4")]]]
          example_schema false "repeat(1, 1fr)".

(** The parse of the property [name] ran to its end during the update. *)
Definition completed (r : Parser.run) (name : string) (text : option string) : Prop :=
  name ∈ Parser.parsed r ∧ is_Some (JSON.parse (Parser.text text)).

(** The property [name] is due for a parse: it changed and is not empty. *)
Definition due (changed : gset string) (name : string) (text : option string) : bool :=
  bool_decide (name ∈ changed) && truthy text.

(** The cell at row [i], position [j] exists and carries the listener. *)
Definition listening (t : table) (i j : nat) : bool :=
  from_option onclick false (cell_at t i j).

(** The cells marked [subrow] of one row are hidden together or displayed
    together. *)
Definition hidden_together (t : table) : Prop :=
  ∀ i j j' cell cell',
    cell_at t i j = Some cell → cell_at t i j' = Some cell' →
    has_class "subrow" cell = true → has_class "subrow" cell' = true →
    has_class "hidden" cell = has_class "hidden" cell'.

(** The first cell of a row that has cells marked [subrow] is not one of
    them, and it carries [expanded] exactly when they are displayed. *)
Definition icon_agrees (t : table) : Prop :=
  ∀ i j first cell,
    cell_at t i 0 = Some first → cell_at t i j = Some cell →
    has_class "subrow" cell = true →
    has_class "subrow" first = false ∧ has_class "expanded" first = displayed cell.

(** Number of lines of the grid a row of the dataset fills: one for a
    plain row, one per subrow for a grouped row. *)
Definition lines (row : Row) : nat :=
  match row with
  | Plain _ => 1
  | Grouped subrows => length subrows
  end.

End Spec.

Import JSON JS DOM Renderer Controller Spec.

(** ** Property reads *)

(** A key that no object inherits reads the row's own member, or
    [undefined]; the names of [Object.prototype] read what every object
    inherits when the row has no member of that name. *)
Lemma get_own (o : JS.object) (k : string) :
  k ∉ Object_prototype → get o k = from_option of_json undefined (own o k).
Proof.
  intros Hk. unfold get. destruct (own o k); [done|].
  by rewrite bool_decide_eq_false_2.
Qed.

Lemma own_last (o : JS.object) (k : string) (v : json) :
  own (o ++ [(k, v)]) k = Some v.
Proof.
  induction o as [|[k' w] o IH]; simpl.
  - by rewrite String.eqb_refl.
  - by rewrite IH.
Qed.

Example get_inherited :
  get [] "constructor" = inherited "constructor" ∧
  get [("constructor", JNum "1")] "constructor" = of_json (JNum "1") ∧
  get [] "a" = undefined ∧
  get [("a", JNum "1"); ("a", JNum "2")] "a" = of_json (JNum "2").
Proof. repeat split. Qed.

(** ** Layout and rendering *)

Section Rendering.

Variable this : ReactiveTable.

Let rendered : ReactiveTable := (render this).1.
Let t : table := (render this).2.

Lemma render_hasHiddenRows : hasHiddenRows rendered = existsb isArray (_data this).
Proof. subst rendered. unfold render. simpl. by destruct (existsb isArray (_data this)). Qed.

Lemma render_schema : _schema rendered = _schema this.
Proof. subst rendered. unfold render. simpl. by destruct (existsb isArray (_data this)). Qed.

Lemma render_data : _data rendered = _data this.
Proof. subst rendered. unfold render. simpl. by destruct (existsb isArray (_data this)). Qed.

Lemma render_thead : thead t = _getHeaders rendered.
Proof. reflexivity. Qed.

Lemma render_tbody : tbody t = _getRows rendered.
Proof. reflexivity. Qed.

Lemma existsb_isArray_false (D : list Row) :
  existsb isArray D = false ↔ Forall (λ row, isArray row = false) D.
Proof.
  induction D as [|row D IH]; simpl.
  - split; [constructor | done].
  - rewrite orb_false_iff, IH. split.
    + intros [? ?]. by constructor.
    + by inversion 1.
Qed.

Lemma length_subrow_cells (this' : ReactiveTable) index subrow :
  length (subrow_cells this' index subrow) = S (length (_schema this')).
Proof. unfold subrow_cells. simpl. by rewrite length_map. Qed.

Lemma length_concat_uniform {A} (ls : list (list A)) n :
  Forall (λ l, length l = n) ls → length (concat ls) = length ls * n.
Proof.
  induction 1 as [|l ls Hl _ IH]; [done|].
  simpl. rewrite length_app, IH, Hl. done.
Qed.

Lemma lookup_concat_uniform {A} (ls : list (list A)) n m k :
  Forall (λ l, length l = n) ls → k < n →
  concat ls !! (m * n + k) = ls !! m ≫= (.!! k).
Proof.
  intros Hls Hk. revert m. induction Hls as [|l ls Hl _ IH]; intros m.
  - done.
  - destruct m as [|m]; simpl.
    + rewrite lookup_app_l by lia. done.
    + rewrite lookup_app_r by lia.
      replace (n + m * n + k - length l) with (m * n + k) by lia. apply IH.
Qed.

Lemma Forall_length_subrow_cells (this' : ReactiveTable) subrows :
  Forall (λ l, length l = S (length (_schema this')))
         (imap (subrow_cells this') subrows).
Proof.
  apply Forall_lookup. intros i l. rewrite list_lookup_imap.
  destruct (subrows !! i); simpl; [|done].
  intros [= <-]. apply length_subrow_cells.
Qed.

(** Every row of a non-empty body fills whole lines of the grid: one line
    for a plain row, one line per subrow for a grouped row. *)
Lemma length_row_cells (i : nat) (row : Row) :
  _data this !! i = Some row →
  length (row_cells rendered row) =
  lines row * ((if existsb isArray (_data this) then 1 else 0) + length (_schema this)).
Proof.
  intros Hrow. destruct row as [r|subrows]; simpl.
  - rewrite length_app, length_map, render_schema, render_hasHiddenRows.
    destruct (existsb isArray (_data this)); simpl; lia.
  - rewrite (length_concat_uniform _ _ (Forall_length_subrow_cells _ _)).
    rewrite length_imap, render_schema.
    replace (existsb isArray (_data this)) with true; [done|].
    symmetry. apply existsb_exists. exists (Grouped subrows).
    split; [|done]. apply list_elem_of_In. by eapply list_elem_of_lookup_2.
Qed.

Lemma tbody_lookup (i : nat) (row : Row) :
  _data this !! i = Some row → tbody t !! i = Some (row_cells rendered row).
Proof.
  intros Hrow. rewrite render_tbody. unfold _getRows. rewrite render_data.
  destruct (_data this) as [|row0 D] eqn:HD; [done|]. simpl length. simpl Nat.eqb. cbv iota.
  rewrite list_lookup_fmap, Hrow. done.
Qed.

(** C1. With no grouped row in the dataset the grid template is one [1fr]
    track per schema column, the header row has exactly one cell per schema
    column and every row of the body has that many cells; with at least one
    grouped row the template gains a leading [1rem] track, the header gains
    one leading empty cell, and every row of the body has one more cell per
    line: the column count is the schema length plus one. *)
Theorem render_column_count :
  let n := length (_schema this) in
  (Forall (λ row, isArray row = false) (_data this) →
     gridtemplate rendered = "repeat(" +:+ pretty n +:+ ", 1fr)" ∧
     thead t = map (λ h, Text (name h)) (_schema this) ∧
     length (thead t) = n ∧
     ∀ i row cells, _data this !! i = Some row → tbody t !! i = Some cells →
                    length cells = lines row * n) ∧
  (Exists (λ row, isArray row = true) (_data this) →
     gridtemplate rendered = "1rem repeat(" +:+ pretty n +:+ ", 1fr)" ∧
     thead t = Empty :: map (λ h, Text (name h)) (_schema this) ∧
     length (thead t) = n + 1 ∧
     ∀ i row cells, _data this !! i = Some row → tbody t !! i = Some cells →
                    length cells = lines row * (n + 1)).
Proof.
  intros n. split.
  - intros Hplain. apply existsb_isArray_false in Hplain.
    split; [|split; [|split]].
    + subst rendered. unfold render. by rewrite Hplain.
    + subst t. unfold render, _getHeaders. by rewrite Hplain.
    + subst t. unfold render, _getHeaders. rewrite Hplain. simpl. by rewrite length_map.
    + intros i row cells Hrow. rewrite (tbody_lookup _ _ Hrow). intros [= <-].
      rewrite (length_row_cells _ _ Hrow), Hplain. done.
  - intros Hgrouped.
    assert (existsb isArray (_data this) = true) as Hex.
    { apply existsb_exists. apply Exists_exists in Hgrouped as (row & Hin & Hrow).
      exists row. split; [by apply list_elem_of_In | done]. }
    split; [|split; [|split]].
    + subst rendered. unfold render. by rewrite Hex.
    + subst t. unfold render, _getHeaders. by rewrite Hex.
    + subst t. unfold render, _getHeaders. rewrite Hex. simpl. rewrite length_map. lia.
    + intros i row cells Hrow. rewrite (tbody_lookup _ _ Hrow). intros [= <-].
      rewrite (length_row_cells _ _ Hrow), Hex. f_equal. lia.
Qed.

Lemma shows_cell_value (classes : gset string) (listener : bool) (row : JS.object) (c : column) :
  shows (Td classes listener (Binding (cell_value row c))) row c.
Proof. unfold shows, cell_value, coalesce. simpl. split; intros ->; done. Qed.

(** The cell rendered for a row (a plain row, or a subrow of a grouped
    row) and a schema column [c] is bound to the property read
    [row[c.key]] when that read is not nullish, and to [c.default]
    otherwise.  The cell sits after the leading cell of its line: at
    position [k] or [1 + k] of a plain row, at position [1 + k] of line [m]
    of a grouped row. *)
Theorem render_cell_value (i k : nat) (c : column) :
  _schema this !! k = Some c →
  (∀ row, _data this !! i = Some (Plain row) →
     ∃ cell, cell_at t i ((if hasHiddenRows rendered then 1 else 0) + k) = Some cell ∧
             shows cell row c) ∧
  (∀ subrows m subrow,
     _data this !! i = Some (Grouped subrows) → subrows !! m = Some subrow →
     ∃ cell, cell_at t i (m * S (length (_schema this)) + S k) = Some cell ∧
             shows cell subrow c).
Proof.
  intros Hc. split.
  - intros row Hrow. unfold cell_at. rewrite (tbody_lookup _ _ Hrow). simpl.
    eexists. split; [|apply (shows_cell_value ∅ false)].
    rewrite render_schema.
    destruct (hasHiddenRows rendered); simpl; rewrite list_lookup_fmap, Hc; done.
  - intros subrows m subrow Hrow Hsub. unfold cell_at. rewrite (tbody_lookup _ _ Hrow). simpl.
    rewrite <- render_schema.
    rewrite (lookup_concat_uniform _ _ _ _ (Forall_length_subrow_cells rendered subrows)).
    2:{ apply lookup_lt_Some in Hc. rewrite render_schema. lia. }
    rewrite list_lookup_imap, Hsub. simpl.
    rewrite list_lookup_fmap, render_schema, Hc. simpl.
    eexists. split; [done|]. apply shows_cell_value.
Qed.

Lemma shows_member_of_shows (cell : td) (row : JS.object) (c : column) :
  shows cell row c → shows_member cell row c.
Proof.
  unfold shows, shows_member, get. intros [Hvalue Hdefault].
  destruct (own row (key c)) as [v|].
  - destruct v; solve [by apply Hvalue | by apply Hdefault].
  - destruct (bool_decide (key c ∈ Object_prototype)); [by apply Hvalue | by apply Hdefault].
Qed.

(** C2, as the code has it.  The cell rendered for a row (a plain row, or
    a subrow of a grouped row) and a schema column [c] shows the member
    [c.key] of the row when the row has it and it is not [null], and
    [c.default] when the member is [null] or missing, with one exception:
    when the member is missing and [c.key] is the name of a member of
    [Object.prototype], the read [row[c.key]] finds the inherited member
    and the cell is bound to that, not to the default. *)
Theorem render_cell_member (i k : nat) (c : column) :
  _schema this !! k = Some c →
  (∀ row, _data this !! i = Some (Plain row) →
     ∃ cell, cell_at t i ((if hasHiddenRows rendered then 1 else 0) + k) = Some cell ∧
             shows_member cell row c) ∧
  (∀ subrows m subrow,
     _data this !! i = Some (Grouped subrows) → subrows !! m = Some subrow →
     ∃ cell, cell_at t i (m * S (length (_schema this)) + S k) = Some cell ∧
             shows_member cell subrow c).
Proof.
  intros Hc. destruct (render_cell_value i k c Hc) as [Hplain Hgrouped]. split.
  - intros row Hrow. destruct (Hplain row Hrow) as (cell & Hcell & Hshows).
    exists cell. split; [done|]. by apply shows_member_of_shows.
  - intros subrows m subrow Hrow Hsub.
    destruct (Hgrouped subrows m subrow Hrow Hsub) as (cell & Hcell & Hshows).
    exists cell. split; [done|]. by apply shows_member_of_shows.
Qed.

(** C8. Whatever the schema, an empty dataset renders a body of exactly one
    row holding the single informational cell, and no cell bound to a
    schema column. *)
Theorem render_empty_dataset :
  _data this = [] →
  tbody t = [[Td {[ "nodata" ]} false (Text "There is no data to show")]] ∧
  ∀ i j cell, cell_at t i j = Some cell → ∀ v, child cell ≠ Binding v.
Proof.
  intros Hempty.
  assert (tbody t = [[Td {[ "nodata" ]} false (Text "There is no data to show")]]) as Hbody.
  { rewrite render_tbody. unfold _getRows. rewrite render_data, Hempty. done. }
  split; [done|].
  intros i j cell. unfold cell_at. rewrite Hbody.
  destruct i as [|i]; [|done]. destruct j as [|j]; [|done].
  simpl. intros [= <-]. done.
Qed.

(** C9. The footer is one row with one cell whose text is the number of
    top-level entries of the dataset followed by " records"; a grouped row
    is one entry whatever the number of its subrows. *)
Theorem render_footer_count :
  tfoot t = [[Td ∅ false (Text (pretty (length (_data this)) +:+ " records"))]].
Proof.
  subst t. unfold render. simpl.
  by destruct (existsb isArray (_data this)).
Qed.

End Rendering.

Lemma render_column_count_witness :
  gridtemplate (render example).1 = "1rem repeat(1, 1fr)" ∧
  length (thead (render example).2) = 2 ∧
  gridtemplate (render plain_example).1 = "repeat(1, 1fr)" ∧
  length (thead (render plain_example).2) = 1.
Proof.
  destruct (render_column_count example) as [_ Hgrouped].
  destruct (render_column_count plain_example) as [Hplain _].
  destruct Hgrouped as (Hg & _ & Hh & _).
  { apply Exists_cons_tl, Exists_cons_hd. reflexivity. }
  destruct Hplain as (Hp & _ & Hq & _).
  { repeat constructor. }
  exact (conj Hg (conj Hh (conj Hp Hq))).
Defined.

Lemma render_cell_value_witness :
  (∃ cell, cell_at (render example).2 1 3 = Some cell ∧
           child cell = Binding (of_json (JNum "3"))) ∧
  (∃ cell, cell_at (render plain_example).2 0 0 = Some cell ∧
           child cell = Binding (of_json (JStr "none"))).
Proof.
  split.
  - destruct (render_cell_value example 1 0 _ eq_refl) as [_ Hgrouped].
    destruct (Hgrouped _ 1 _ eq_refl eq_refl) as (cell & Hcell & Hshows & _).
    exists cell. split; [exact Hcell | exact (Hshows eq_refl)].
  - destruct (render_cell_value plain_example 0 0 _ eq_refl) as [Hplain _].
    destruct (Hplain _ eq_refl) as (cell & Hcell & _ & Hshows).
    exists cell. split; [exact Hcell | exact (Hshows eq_refl)].
Defined.

Lemma render_cell_member_witness :
  (∃ cell, cell_at (render example).2 1 3 = Some cell ∧
           child cell = Binding (of_json (JNum "3"))) ∧
  (∃ cell, cell_at (render plain_example).2 0 0 = Some cell ∧
           child cell = Binding (of_json (JStr "none"))) ∧
  (∃ cell, cell_at (render inherited_key_example).2 0 0 = Some cell ∧
           child cell = Binding (inherited "toString")).
Proof.
  split; [|split].
  - destruct (render_cell_member example 1 0 _ eq_refl) as [_ Hgrouped].
    destruct (Hgrouped _ 1 _ eq_refl eq_refl) as (cell & Hcell & Hshows).
    exists cell. split; [exact Hcell | exact Hshows].
  - destruct (render_cell_member plain_example 0 0 _ eq_refl) as [Hplain _].
    destruct (Hplain _ eq_refl) as (cell & Hcell & Hshows).
    exists cell. split; [exact Hcell | exact Hshows].
  - destruct (render_cell_member inherited_key_example 0 0 _ eq_refl) as [Hplain _].
    destruct (Hplain _ eq_refl) as (cell & Hcell & Hshows).
    exists cell. split; [exact Hcell | exact Hshows].
Defined.

(** C2 as stated fails: the row [{}] has no member [toString], so the
    claim asks for the column default, yet the cell rendered for it under
    a column of that key is bound to the member inherited from
    [Object.prototype], which is not the default. *)
Lemma render_cell_inherited_member :
  own [] "toString" = None ∧
  ∃ cell, cell_at (render inherited_key_example).2 0 0 = Some cell ∧
          child cell = Binding (inherited "toString") ∧
          child cell ≠ Binding (of_json (JStr "-")).
Proof.
  split; [reflexivity|]. eexists. split; [reflexivity|]. split; [reflexivity|].
  discriminate.
Qed.

Lemma render_empty_dataset_witness :
  tbody (render (Element [] example_schema false "repeat(1, 1fr)")).2 =
  [[Td {[ "nodata" ]} false (Text "There is no data to show")]].
Proof. exact (proj1 (render_empty_dataset (Element [] example_schema false "repeat(1, 1fr)") eq_refl)). Defined.

Example render_footer_example :
  tfoot (render example).2 = [[Td ∅ false (Text "2 records")]].
Proof. reflexivity. Qed.

(** ** Expanding and collapsing *)

Section Toggle.

Implicit Types (cell : td) (row : list td) (t : table) (token : string).

Lemma elem_of_toggle token (cl : gset string) x :
  x ∈ toggle token cl ↔ (x = token ∧ token ∉ cl) ∨ (x ≠ token ∧ x ∈ cl).
Proof.
  unfold toggle. destruct (bool_decide_reflect (token ∈ cl)).
  - set_solver.
  - destruct (decide (x = token)); set_solver.
Qed.

Lemma toggle_involutive token (cl : gset string) : toggle token (toggle token cl) = cl.
Proof.
  apply set_eq. intros x. rewrite !elem_of_toggle.
  destruct (decide (x = token)) as [->|]; [|naive_solver].
  destruct (decide (token ∈ cl)); naive_solver.
Qed.

Lemma toggle_comm token token' (cl : gset string) :
  toggle token (toggle token' cl) = toggle token' (toggle token cl).
Proof.
  apply set_eq. intros x. rewrite !elem_of_toggle.
  destruct (decide (x = token)), (decide (x = token')),
    (decide (token ∈ cl)), (decide (token' ∈ cl)); naive_solver.
Qed.

Lemma has_class_toggle_class token cell :
  has_class token (toggle_class token cell) = negb (has_class token cell).
Proof.
  unfold has_class, toggle_class. simpl.
  destruct (bool_decide_reflect (token ∈ classList cell)); simpl.
  - apply bool_decide_eq_false. rewrite elem_of_toggle. naive_solver.
  - apply bool_decide_eq_true. rewrite elem_of_toggle. naive_solver.
Qed.

Lemma has_class_toggle_class_ne token token' cell :
  token ≠ token' →
  has_class token (toggle_class token' cell) = has_class token cell.
Proof.
  intros Hne. unfold has_class, toggle_class. simpl.
  apply bool_decide_ext. rewrite elem_of_toggle. naive_solver.
Qed.

Lemma toggle_class_involutive token cell :
  toggle_class token (toggle_class token cell) = cell.
Proof.
  destruct cell as [cl listener c]. unfold toggle_class. simpl.
  by rewrite toggle_involutive.
Qed.

Lemma toggle_class_comm token token' cell :
  toggle_class token (toggle_class token' cell) =
  toggle_class token' (toggle_class token cell).
Proof. unfold toggle_class. simpl. by rewrite toggle_comm. Qed.

Lemma handler_lookup target row j :
  _handleToggleExpandClick target row !! j = on_cell target j <$> row !! j.
Proof.
  unfold _handleToggleExpandClick, on_cell.
  destruct (bool_decide_reflect (j = target)) as [->|Hne].
  - rewrite list_lookup_alter_eq, list_lookup_fmap. by destruct (row !! target).
  - rewrite list_lookup_alter_ne by done. rewrite list_lookup_fmap. by destruct (row !! j).
Qed.

Lemma length_handler target row :
  length (_handleToggleExpandClick target row) = length row.
Proof. unfold _handleToggleExpandClick. by rewrite length_alter, length_map. Qed.

Lemma on_cell_involutive target j cell :
  on_cell target j (on_cell target j cell) = cell.
Proof.
  unfold on_cell.
  destruct (bool_decide (j = target)), (has_class "subrow" cell) eqn:Hsub;
    rewrite ?has_class_toggle_class_ne, ?Hsub by done;
    rewrite ?has_class_toggle_class_ne, ?Hsub by done;
    rewrite ?toggle_class_involutive; try done.
  rewrite (toggle_class_comm "hidden" "expanded"), toggle_class_involutive.
  apply toggle_class_involutive.
Qed.

Lemma on_cell_listener target j cell : onclick (on_cell target j cell) = onclick cell.
Proof.
  unfold on_cell.
  by destruct (bool_decide (j = target)), (has_class "subrow" cell).
Qed.

Lemma on_cell_evolves target j cell : evolves cell (on_cell target j cell).
Proof.
  unfold evolves, on_cell.
  destruct (bool_decide (j = target)), (has_class "subrow" cell) eqn:Hsub; simpl;
    rewrite ?has_class_toggle_class_ne by done;
    rewrite ?has_class_toggle_class_ne by done; done.
Qed.

Lemma handler_involutive target row :
  _handleToggleExpandClick target (_handleToggleExpandClick target row) = row.
Proof.
  apply list_eq. intros j. rewrite !handler_lookup.
  destruct (row !! j); simpl; [|done]. by rewrite on_cell_involutive.
Qed.

(** The effect of a click, row by row. *)
Lemma click_tbody i j t :
  tbody (click i j t) =
  match cell_at t i j with
  | Some cell => if onclick cell then alter (_handleToggleExpandClick j) i (tbody t)
                 else tbody t
  | None => tbody t
  end.
Proof.
  unfold click, cell_at. destruct (tbody t !! i ≫= (.!! j)) as [cell|]; [|done].
  by destruct (onclick cell).
Qed.

Lemma click_thead i j t : thead (click i j t) = thead t.
Proof.
  unfold click. destruct (tbody t !! i ≫= (.!! j)) as [cell|]; [|done].
  by destruct (onclick cell).
Qed.

Lemma click_tfoot i j t : tfoot (click i j t) = tfoot t.
Proof.
  unfold click. destruct (tbody t !! i ≫= (.!! j)) as [cell|]; [|done].
  by destruct (onclick cell).
Qed.

Lemma click_other_row i j t i' : i' ≠ i → tbody (click i j t) !! i' = tbody t !! i'.
Proof.
  intros Hne. rewrite click_tbody.
  destruct (cell_at t i j) as [cell|]; [|done].
  destruct (onclick cell); [|done]. by rewrite list_lookup_alter_ne.
Qed.

Lemma table_eq t t' :
  thead t = thead t' → tbody t = tbody t' → tfoot t = tfoot t' → t = t'.
Proof. destruct t, t'. simpl. by intros -> -> ->. Qed.

Lemma click_involutive i j t : click i j (click i j t) = t.
Proof.
  apply table_eq; rewrite ?click_thead, ?click_tfoot; try done.
  rewrite (click_tbody i j (click i j t)).
  unfold cell_at at 1. rewrite (click_tbody i j t).
  unfold cell_at. destruct (tbody t !! i) as [row|] eqn:Hrow; simpl; [|by rewrite Hrow].
  destruct (row !! j) as [cell|] eqn:Hcell; simpl; [|by rewrite Hrow; simpl; rewrite Hcell].
  destruct (onclick cell) eqn:Hlistener.
  - rewrite list_lookup_alter_eq, Hrow. simpl.
    rewrite handler_lookup, Hcell. simpl. rewrite on_cell_listener, Hlistener.
    apply list_eq. intros i'. destruct (decide (i' = i)) as [->|Hne].
    + rewrite !list_lookup_alter_eq, Hrow. simpl. by rewrite handler_involutive.
    + by rewrite !list_lookup_alter_ne.
  - rewrite Hrow. simpl. rewrite Hcell. by rewrite Hlistener.
Qed.

Lemma iter_click_parity n i j t :
  Nat.iter n (click i j) t = if Nat.even n then t else click i j t.
Proof.
  induction n as [|n IH]; [done|].
  rewrite Nat.even_succ, <- Nat.negb_even. simpl. rewrite IH.
  destruct (Nat.even n); simpl; [done|]. apply click_involutive.
Qed.

Lemma cell_at_click i j t j' :
  cell_at (click i j t) i j' =
  match cell_at t i j with
  | Some cell => if onclick cell then on_cell j j' <$> cell_at t i j' else cell_at t i j'
  | None => cell_at t i j'
  end.
Proof.
  unfold cell_at at 1. rewrite click_tbody.
  destruct (cell_at t i j) as [cell|]; [|done].
  destruct (onclick cell); [|done].
  rewrite list_lookup_alter_eq. unfold cell_at.
  destruct (tbody t !! i) as [row|]; simpl; [|done]. apply handler_lookup.
Qed.

Lemma evolves_refl cell : evolves cell cell.
Proof. by unfold evolves. Qed.

Lemma evolves_trans cell cell' cell'' :
  evolves cell cell' → evolves cell' cell'' → evolves cell cell''.
Proof.
  unfold evolves. intros (Hl & Hc & Hs & Hh) (Hl' & Hc' & Hs' & Hh').
  repeat split; try congruence.
  intros Hsub. rewrite Hh' by congruence. by apply Hh.
Qed.

(** One click, seen from any cell of the body. *)
Lemma click_cell_at i j t i' j' :
  ∃ f, (∀ cell, evolves cell (f cell)) ∧
       cell_at (click i j t) i' j' = f <$> cell_at t i' j'.
Proof.
  destruct (decide (i' = i)) as [->|Hne].
  - rewrite cell_at_click. destruct (cell_at t i j) as [cell|].
    + destruct (onclick cell).
      * exists (on_cell j j'). split; [apply on_cell_evolves | done].
      * exists id. split; [apply evolves_refl | by rewrite option_fmap_id].
    + exists id. split; [apply evolves_refl | by rewrite option_fmap_id].
  - exists id. split; [apply evolves_refl|].
    unfold cell_at. rewrite click_other_row by done. by rewrite option_fmap_id.
Qed.

Lemma clicks_cell_at events t i' j' :
  ∃ f, (∀ cell, evolves cell (f cell)) ∧
       cell_at (clicks events t) i' j' = f <$> cell_at t i' j'.
Proof.
  revert t. induction events as [|[i j] events IH]; intros t.
  - exists id. split; [apply evolves_refl | by rewrite option_fmap_id].
  - simpl. destruct (IH (click i j t)) as (g & Hg & ->).
    destruct (click_cell_at i j t i' j') as (f & Hf & ->).
    exists (g ∘ f). split.
    + intros cell. eapply evolves_trans; [apply Hf | apply Hg].
    + by rewrite option_fmap_compose.
Qed.

End Toggle.

(** *** Cells of a rendered grouped row *)

Section GroupedRow.

Variable this : ReactiveTable.
Variable subrows : list JS.object.

Let n : nat := length (_schema this).
Let cells : list td := concat (imap (subrow_cells this) subrows).

Lemma grouped_cell_lookup (m k : nat) :
  k < S n → cells !! (m * S n + k) = subrows !! m ≫= λ subrow, subrow_cells this m subrow !! k.
Proof.
  intros Hk. subst cells.
  rewrite (lookup_concat_uniform _ _ _ _ (Forall_length_subrow_cells this subrows)) by done.
  rewrite list_lookup_imap. by destruct (subrows !! m).
Qed.

Lemma subrow_cell_classes (m k : nat) (subrow : JS.object) (cell : td) :
  subrow_cells this m subrow !! k = Some cell →
  has_class "subrow" cell = bool_decide (m ≠ 0) ∧
  has_class "hidden" cell = bool_decide (m ≠ 0) ∧
  has_class "expanded" cell = false ∧
  has_class "expander" cell = bool_decide (m = 0 ∧ k = 0) ∧
  onclick cell = bool_decide (k = 0).
Proof.
  unfold subrow_cells. destruct k as [|k]; simpl.
  - intros [= <-]. destruct m; done.
  - rewrite list_lookup_fmap. destruct (_schema this !! k); simpl; [|done].
    intros [= <-]. destruct m; done.
Qed.

Lemma grouped_cell_classes (j : nat) (cell : td) :
  cells !! j = Some cell →
  has_class "subrow" cell = bool_decide (S n ≤ j)%nat ∧
  has_class "hidden" cell = bool_decide (S n ≤ j)%nat ∧
  has_class "expanded" cell = false ∧
  has_class "expander" cell = bool_decide (j = 0) ∧
  (j = 0 → onclick cell = true).
Proof.
  pose proof (Nat.div_mod_eq j (S n)) as Hj.
  pose proof (Nat.mod_upper_bound j (S n) ltac:(done)) as Hk.
  set (m := j / S n) in *. set (k := j mod S n) in *.
  rewrite Hj, (Nat.mul_comm (S n) m), grouped_cell_lookup by done.
  destruct (subrows !! m) as [subrow|]; simpl; [|done].
  intros (Hsub & Hhid & Hexp & Hexpander & Hlistener)%subrow_cell_classes.
  rewrite Hsub, Hhid, Hexp, Hexpander, Hlistener.
  assert (m ≠ 0 ↔ (S n ≤ m * S n + k)%nat) as Hm by (destruct m; simpl; lia).
  assert (m = 0 ∧ k = 0 ↔ m * S n + k = 0) as Hz by (destruct m; simpl; lia).
  repeat split.
  - by apply bool_decide_ext.
  - by apply bool_decide_ext.
  - by apply bool_decide_ext.
  - intros H0. apply bool_decide_eq_true. lia.
Qed.

Lemma first_line_exists (j : nat) :
  subrows ≠ [] → j < S n → is_Some (cells !! j).
Proof.
  intros Hne Hj. pose proof (grouped_cell_lookup 0 j Hj) as Hlookup.
  simpl in Hlookup. rewrite Hlookup.
  destruct subrows as [|subrow rest]; [done|]. simpl.
  apply lookup_lt_is_Some. by rewrite length_subrow_cells.
Qed.

End GroupedRow.

Lemma on_cell_hidden (target j : nat) (cell : td) :
  has_class "hidden" (on_cell target j cell) =
  if has_class "subrow" cell then negb (has_class "hidden" cell) else has_class "hidden" cell.
Proof.
  unfold on_cell.
  destruct (bool_decide (j = target)), (has_class "subrow" cell);
    rewrite ?(has_class_toggle_class_ne "hidden" "expanded") by done;
    by rewrite ?has_class_toggle_class.
Qed.

Lemma on_cell_expanded (target j : nat) (cell : td) :
  has_class "expanded" (on_cell target j cell) =
  if bool_decide (j = target) then negb (has_class "expanded" cell)
  else has_class "expanded" cell.
Proof.
  unfold on_cell.
  destruct (bool_decide (j = target)), (has_class "subrow" cell);
    rewrite ?has_class_toggle_class;
    by rewrite ?(has_class_toggle_class_ne "expanded" "hidden") by done.
Qed.

Lemma on_cell_expander (target j : nat) (cell : td) :
  has_class "expander" (on_cell target j cell) = has_class "expander" cell.
Proof.
  unfold on_cell.
  destruct (bool_decide (j = target)), (has_class "subrow" cell);
    by rewrite ?has_class_toggle_class_ne by done.
Qed.

Lemma rendered_grouped_cell_at (this : ReactiveTable) (i : nat) (subrows : list JS.object) (j : nat) :
  _data this !! i = Some (Grouped subrows) →
  cell_at (render this).2 i j = concat (imap (subrow_cells (render this).1) subrows) !! j.
Proof. intros Hrow. unfold cell_at. by rewrite (tbody_lookup _ _ _ Hrow). Qed.

(** C3. Clicking the expander of a grouped row [n] times: the cells marked
    [subrow] (all the cells after the first line of the row) are hidden
    when [n] is even and displayed when [n] is odd; the expander carries
    [expanded] exactly when [n] is odd; an even number of clicks gives back
    the table as rendered; and two clicks in a row give back the table
    they started from. *)
Theorem expander_clicks_parity
    (this : ReactiveTable) (i : nat) (subrows : list JS.object) (n : nat) :
  _data this !! i = Some (Grouped subrows) →
  let tn := Nat.iter n (click i 0) (render this).2 in
  (∀ j cell, cell_at tn i j = Some cell →
     has_class "subrow" cell = bool_decide (S (length (_schema this)) ≤ j)%nat ∧
     (has_class "subrow" cell = true → displayed cell = Nat.odd n)) ∧
  (∀ cell, cell_at tn i 0 = Some cell →
     has_class "expander" cell = true ∧ has_class "expanded" cell = Nat.odd n) ∧
  (Nat.even n = true → tn = (render this).2) ∧
  click i 0 (click i 0 tn) = tn.
Proof.
  intros Hrow tn.
  pose proof (rendered_grouped_cell_at this i subrows) as Hat.
  pose proof (grouped_cell_classes (render this).1 subrows) as Hclasses.
  rewrite render_schema in Hclasses.
  assert (∀ j cell, cell_at tn i j = Some cell →
            ∃ cell0, cell_at (render this).2 i j = Some cell0 ∧
                     cell = if Nat.even n then cell0 else on_cell 0 j cell0) as Hcell.
  { intros j cell. subst tn. rewrite iter_click_parity.
    destruct (Nat.even n); [by eauto|].
    rewrite cell_at_click.
    destruct (cell_at (render this).2 i 0) as [cell0|] eqn:Hcell0.
    - rewrite (Hat _ Hrow) in Hcell0. apply Hclasses in Hcell0 as (_ & _ & _ & _ & ->); [|done].
      destruct (cell_at (render this).2 i j) as [c|]; simpl; [|done].
      intros [= <-]. eauto.
    - intros Hc. exists cell. split; [done|].
      rewrite (Hat _ Hrow) in Hcell0. rewrite (Hat _ Hrow) in Hc.
      apply lookup_ge_None in Hcell0.
      apply lookup_lt_Some in Hc. lia. }
  split; [|split; [|split]].
  - intros j cell (cell0 & Hcell0 & ->)%Hcell.
    rewrite (Hat _ Hrow) in Hcell0. apply Hclasses in Hcell0 as (Hsub & Hhid & _).
    unfold displayed. rewrite <- Nat.negb_even. destruct (Nat.even n); simpl.
    + split; [done|]. rewrite Hhid, <- Hsub. by intros ->.
    + destruct (on_cell_evolves 0 j cell0) as (_ & _ & -> & _).
      split; [done|]. rewrite on_cell_hidden, Hhid, <- Hsub. by intros ->.
  - intros cell (cell0 & Hcell0 & ->)%Hcell.
    rewrite (Hat _ Hrow) in Hcell0. apply Hclasses in Hcell0 as (_ & _ & Hexp & Hexpander & _).
    rewrite <- Nat.negb_even. destruct (Nat.even n); simpl.
    + by rewrite Hexp, Hexpander.
    + by rewrite on_cell_expander, on_cell_expanded, Hexp, Hexpander.
  - intros Heven. subst tn. by rewrite iter_click_parity, Heven.
  - apply click_involutive.
Qed.

(** C4. A click changes nothing outside the body row it lands in: the
    header, the footer and every other row are the same after it, and in
    the row itself only cells marked [subrow] can change visibility. *)
Theorem click_frame (t : table) (i j : nat) :
  thead (click i j t) = thead t ∧
  tfoot (click i j t) = tfoot t ∧
  length (tbody (click i j t)) = length (tbody t) ∧
  (∀ i', i' ≠ i → tbody (click i j t) !! i' = tbody t !! i') ∧
  (∀ j' cell', cell_at (click i j t) i j' = Some cell' →
     ∃ cell, cell_at t i j' = Some cell ∧ evolves cell cell').
Proof.
  split; [apply click_thead|]. split; [apply click_tfoot|]. split; [|split].
  - rewrite click_tbody. destruct (cell_at t i j) as [cell|]; [|done].
    destruct (onclick cell); [|done]. apply length_alter.
  - intros i'. apply click_other_row.
  - intros j' cell'. destruct (click_cell_at i j t i j') as (f & Hf & ->).
    destruct (cell_at t i j') as [cell|]; simpl; [|done].
    intros [= <-]. eauto.
Qed.

(** C10. The cells of the first subrow of a grouped row are rendered
    without [subrow] and without [hidden], and no sequence of clicks, on
    any cells of the table, gives them either mark: they are displayed in
    every state the table can reach. *)
Theorem first_subrow_stays_displayed
    (this : ReactiveTable) (events : list (nat * nat)) (i : nat)
    (subrows : list JS.object) (j : nat) :
  _data this !! i = Some (Grouped subrows) →
  j < S (length (_schema this)) →
  let t := clicks events (render this).2 in
  (subrows ≠ [] → is_Some (cell_at t i j)) ∧
  (∀ cell, cell_at t i j = Some cell →
     has_class "subrow" cell = false ∧ has_class "hidden" cell = false ∧
     displayed cell = true).
Proof.
  intros Hrow Hj t.
  destruct (clicks_cell_at events (render this).2 i j) as (f & Hf & Hcell).
  fold t in Hcell. rewrite Hcell, (rendered_grouped_cell_at _ _ _ _ Hrow).
  pose proof (grouped_cell_classes (render this).1 subrows j) as Hclasses.
  rewrite render_schema in Hclasses.
  split.
  - intros Hne. apply fmap_is_Some, first_line_exists; [done|].
    by rewrite render_schema.
  - intros cell.
    destruct (concat (imap (subrow_cells (render this).1) subrows) !! j) as [cell0|];
      simpl; [|done].
    intros [= <-]. destruct (Hclasses cell0 eq_refl) as (Hsub & Hhid & _).
    rewrite bool_decide_eq_false_2 in Hsub, Hhid by lia.
    destruct (Hf cell0) as (_ & _ & Hsub' & Hhid').
    unfold displayed. rewrite Hhid', Hsub', Hsub, Hhid; done.
Qed.

Lemma expander_clicks_parity_witness :
  (∃ cell, cell_at (Nat.iter 3 (click 1 0) (render example).2) 1 3 = Some cell ∧
           displayed cell = true) ∧
  (∃ cell, cell_at (Nat.iter 4 (click 1 0) (render example).2) 1 3 = Some cell ∧
           displayed cell = false).
Proof.
  split.
  - destruct (expander_clicks_parity example 1 _ 3 eq_refl) as (Hcells & _).
    eexists. split; [reflexivity|].
    apply (Hcells 3 _ eq_refl). reflexivity.
  - destruct (expander_clicks_parity example 1 _ 4 eq_refl) as (Hcells & _).
    eexists. split; [reflexivity|].
    apply (Hcells 3 _ eq_refl). reflexivity.
Defined.

Lemma click_frame_witness :
  tbody (click 0 0 (render two_groups).2) !! 1 = tbody (render two_groups).2 !! 1 ∧
  tbody (click 0 0 (render two_groups).2) !! 0 ≠ tbody (render two_groups).2 !! 0.
Proof.
  split.
  - destruct (click_frame (render two_groups).2 0 0) as (_ & _ & _ & Hother & _).
    apply Hother. lia.
  - vm_compute. discriminate.
Defined.

Lemma first_subrow_stays_displayed_witness :
  ∃ cell, cell_at (clicks [(1, 0); (1, 2); (0, 0); (1, 0)] (render example).2) 1 1 = Some cell ∧
          displayed cell = true.
Proof.
  destruct (first_subrow_stays_displayed example [(1, 0); (1, 2); (0, 0); (1, 0)] 1 _ 1 eq_refl)
    as [_ Hcell]; [simpl; lia|].
  eexists. split; [reflexivity|]. apply (Hcell _ eq_refl).
Defined.

(** C7, on the code as written.  Every leading cell of a grouped row gets
    the click listener, the markers of the later subrows too.  On the
    spec's example: once the row is expanded the marker of the second
    subrow is displayed; a click on it runs the handler, which hides the
    subrow again and leaves the expander in its expanded state. *)
Theorem marker_click_toggles :
  let expanded := click 1 0 (render example).2 in
  let after := click 1 2 expanded in
  (∃ marker, cell_at expanded 1 2 = Some marker ∧
             has_class "expander" marker = false ∧ child marker = Empty ∧
             onclick marker = true ∧ displayed marker = true) ∧
  (∃ cell, cell_at expanded 1 3 = Some cell ∧ displayed cell = true) ∧
  (∃ cell, cell_at after 1 3 = Some cell ∧ displayed cell = false) ∧
  (∃ expander, cell_at after 1 0 = Some expander ∧
               has_class "expander" expander = true ∧
               has_class "expanded" expander = true).
Proof. repeat split; eexists; (split; [reflexivity|]); repeat split. Qed.

(** The listener is on the leading cell of every subrow, first or not. *)
Lemma subrow_leading_cell_listener (this : ReactiveTable) (index : nat) (subrow : JS.object) :
  ∃ cell, subrow_cells this index subrow !! 0 = Some cell ∧
          onclick cell = true ∧ child cell = Empty ∧
          has_class "expander" cell = bool_decide (index = 0).
Proof.
  eexists. split; [reflexivity|]. simpl. repeat split. by destruct index.
Qed.

(** ** Parsing the inputs *)

Section WillUpdate.
Import Parser.

Variable changed : gset string.
Variable this : properties.

Let r : run := willUpdate changed this.

Lemma willUpdate_texts : data (this_after r) = data this ∧ schema (this_after r) = schema this.
Proof.
  subst r. unfold willUpdate.
  destruct (bool_decide ("data" ∈ changed) && truthy (data this));
    [destruct (JSON.parse (text (data this)))|]; simpl;
    (destruct (bool_decide ("schema" ∈ changed) && truthy (schema this));
      [destruct (JSON.parse (text (schema this)))|]); done.
Qed.

(** C6, as the code has it.  An input is handed to [JSON.parse] only when
    it changed and is not empty; the schema, which comes second, only when
    moreover the parse of the data did not throw.  The parsed dataset
    depends on the [data] property alone, and a schema that is parsed
    takes the value of its own text. *)
Theorem willUpdate_parses :
  ("data" ∈ parsed r ↔ due changed "data" (data this) = true) ∧
  ("schema" ∈ parsed r ↔
     due changed "schema" (schema this) = true ∧
     ¬ (due changed "data" (data this) = true ∧ JSON.parse (text (data this)) = None)) ∧
  _data (this_after r) =
    (if due changed "data" (data this)
     then from_option id (_data this) (JSON.parse (text (data this)))
     else _data this) ∧
  _schema (this_after r) =
    (if bool_decide ("schema" ∈ parsed r)
     then from_option id (_schema this) (JSON.parse (text (schema this)))
     else _schema this).
Proof.
  subst r. unfold willUpdate, due.
  destruct (bool_decide ("data" ∈ changed) && truthy (data this));
    [destruct (JSON.parse (text (data this)))|]; simpl;
    (destruct (bool_decide ("schema" ∈ changed) && truthy (schema this));
      [destruct (JSON.parse (text (schema this)))|]); simpl;
    repeat split; try done; try set_solver; try naive_solver.
Qed.

(** C5, as the code has it.  When an input that changed and is not empty
    is not valid JSON, [willUpdate] ends with the [SyntaxError] of
    [JSON.parse]; the texts are untouched, and a parsed value whose parse
    did not run to its end is the one from before the call. *)
Theorem willUpdate_throws :
  (due changed "data" (data this) = true ∧ JSON.parse (text (data this)) = None) ∨
  (due changed "schema" (schema this) = true ∧ JSON.parse (text (schema this)) = None) →
  outcome r = Thrown_SyntaxError ∧
  (¬ completed r "data" (data this) → _data (this_after r) = _data this) ∧
  (¬ completed r "schema" (schema this) → _schema (this_after r) = _schema this) ∧
  (completed r "data" (data this) → JSON.parse (text (data this)) = Some (_data (this_after r))) ∧
  ¬ completed r "schema" (schema this) ∧
  data (this_after r) = data this ∧ schema (this_after r) = schema this.
Proof.
  intros Hinvalid. split; [|split; [|split; [|split; [|split; [|apply willUpdate_texts]]]]].
  all: subst r; unfold completed, willUpdate, due in *.
  all: destruct (bool_decide ("data" ∈ changed) && truthy (data this));
    [destruct (JSON.parse (text (data this))) eqn:Hdata|]; simpl;
    (destruct (bool_decide ("schema" ∈ changed) && truthy (schema this));
      [destruct (JSON.parse (text (schema this))) eqn:Hschema|]); simpl;
    try done; try (destruct Hinvalid as [[? ?]|[? ?]]; done).
  all: try (intros Hnot; exfalso; apply Hnot; split; [set_solver | by eauto]).
  all: try (intros [_ [? ?]]; done).
  all: try (intros [Hin _]; set_solver).
Qed.

End WillUpdate.

Lemma willUpdate_throws_witness :
  Parser.outcome
    (Parser.willUpdate {[ "data" ]}
       (Parser.Properties (Some "{") (Some "[]") (JArr [JNull]) (JArr []))) =
  Parser.Thrown_SyntaxError ∧
  Parser._data
    (Parser.this_after
       (Parser.willUpdate {[ "data" ]}
          (Parser.Properties (Some "{") (Some "[]") (JArr [JNull]) (JArr [])))) =
  JArr [JNull].
Proof.
  destruct (willUpdate_throws {[ "data" ]}
              (Parser.Properties (Some "{") (Some "[]") (JArr [JNull]) (JArr [])))
    as (Hthrown & Hdata & _).
  { left. split; reflexivity. }
  split; [exact Hthrown|]. apply Hdata. intros [_ [v Hv]]. discriminate Hv.
Defined.

(** C5 as stated fails: the empty string is not valid JSON, and neither is
    an opening brace, yet an update does not throw when the offending text
    is empty or is not among the changed properties. *)
Lemma willUpdate_invalid_text_no_throw :
  JSON.parse EmptyString = None ∧
  Parser.outcome
    (Parser.willUpdate {[ "data" ]}
       (Parser.Properties (Some EmptyString) (Some "[]") (JArr []) (JArr []))) =
  Parser.Normal ∧
  JSON.parse "{" = None ∧
  Parser.outcome
    (Parser.willUpdate {[ "schema" ]}
       (Parser.Properties (Some "{") (Some "[]") (JArr []) (JArr []))) =
  Parser.Normal.
Proof. repeat split. Qed.

(** C6 as stated fails: with both inputs changed, a data text that does not
    parse keeps the changed schema from being parsed at all, and the parsed
    schema differs from the one the same schema text gives next to a data
    text that parses. *)
Lemma willUpdate_schema_depends_on_data :
  let bad := Parser.Properties (Some "{") (Some "[1]") (JArr []) (JArr []) in
  let good := Parser.Properties (Some "[]") (Some "[1]") (JArr []) (JArr []) in
  ("schema" ∈ ({[ "data"; "schema" ]} : gset string)) ∧
  ("schema" ∉ Parser.parsed (Parser.willUpdate {[ "data"; "schema" ]} bad)) ∧
  ("schema" ∈ Parser.parsed (Parser.willUpdate {[ "data"; "schema" ]} good)) ∧
  Parser._schema (Parser.this_after (Parser.willUpdate {[ "data"; "schema" ]} bad)) ≠
  Parser._schema (Parser.this_after (Parser.willUpdate {[ "data"; "schema" ]} good)).
Proof.
  split; [set_solver|]. split; [|split].
  - vm_compute. intros Hin. apply list_elem_of_In in Hin. simpl in Hin. naive_solver.
  - vm_compute. apply list_elem_of_In. simpl. auto.
  - vm_compute. discriminate.
Qed.

(** The spec's example, from its two texts to the element [render] sees. *)
Example example_update :
  let r := Parser.willUpdate {[ "data"; "schema" ]} example_properties in
  Parser.outcome r = Parser.Normal ∧
  element_of (Parser.this_after r) = Some example.
Proof. repeat split. Qed.

(** The first update of a fresh element: both properties are in [changed],
    both parse, and the table shows the informational row. *)
Example first_update :
  let r := Parser.willUpdate {[ "data"; "schema" ]} Parser.constructor in
  Parser.outcome r = Parser.Normal ∧
  Parser.parsed r = ["data"; "schema"] ∧
  option_map (λ this, tbody (render this).2) (element_of (Parser.this_after r)) =
  Some [[Td {[ "nodata" ]} false (Text "There is no data to show")]].
Proof. repeat split. Qed.

(** ** More on rendering *)

Lemma render_ext (this this' : ReactiveTable) :
  _data this' = _data this → _schema this' = _schema this → render this' = render this.
Proof.
  destruct this as [D S b g], this' as [D' S' b' g']. simpl. intros -> ->.
  unfold render. simpl. by destruct (existsb isArray D).
Qed.

Section RenderMore.

Variable this : ReactiveTable.

Let n : nat := length (_schema this).
Let t : table := (render this).2.

(** X1. [render] reads nothing of the element but [_data] and [_schema]:
    the [hasHiddenRows] flag and the grid template left by an earlier
    render do not reach the new tree, and rendering the element that
    [render] returns gives the same element and the same tree again. *)
Theorem render_depends_on_parsed :
  (∀ this', _data this' = _data this → _schema this' = _schema this →
            render this' = render this) ∧
  render (render this).1 = render this.
Proof.
  split; [intros this'; apply render_ext|].
  apply render_ext; [apply render_data | apply render_schema].
Qed.

(** A cell of the rendered body belongs to a grouped row, or is a cell
    without class and listener of a plain row, or is the informational
    cell. *)
Lemma rendered_cell_cases (i j : nat) (cell : td) :
  cell_at t i j = Some cell →
  (∃ subrows, _data this !! i = Some (Grouped subrows) ∧
              concat (imap (subrow_cells (render this).1) subrows) !! j = Some cell) ∨
  ((∀ subrows, _data this !! i ≠ Some (Grouped subrows)) ∧
   (classList cell = ∅ ∨ classList cell = {[ "nodata" ]}) ∧ onclick cell = false).
Proof.
  destruct (_data this !! i) as [[row|subrows]|] eqn:Hrow.
  - unfold cell_at. subst t. rewrite (tbody_lookup _ _ _ Hrow). simpl.
    intros Hcell. right. split; [done|].
    apply list_elem_of_lookup_2, elem_of_app in Hcell as [Hcell|Hcell].
    + destruct (existsb isArray (_data this)); simpl in Hcell.
      * apply list_elem_of_singleton in Hcell as ->. simpl. auto.
      * by apply elem_of_nil in Hcell.
    + apply list_elem_of_fmap in Hcell as (h & -> & _). simpl. auto.
  - rewrite (rendered_grouped_cell_at _ _ _ _ Hrow). eauto.
  - intros Hcell. right. split; [done|].
    unfold cell_at in Hcell. subst t. rewrite render_tbody in Hcell.
    unfold _getRows in Hcell. rewrite render_data in Hcell.
    destruct (_data this) as [|row0 D] eqn:HD.
    + destruct i as [|i]; [|done]. destruct j as [|j]; [|done].
      simpl in Hcell. injection Hcell as <-. simpl. auto.
    + simpl length in Hcell. simpl Nat.eqb in Hcell. cbv iota in Hcell.
      rewrite list_lookup_fmap, Hrow in Hcell. done.
Qed.

Lemma has_class_plain (token : string) (cell : td) :
  classList cell = ∅ ∨ classList cell = {[ "nodata" ]} →
  token ≠ "nodata" → has_class token cell = false.
Proof.
  intros [Hcl|Hcl] Hne; unfold has_class; rewrite Hcl;
    apply bool_decide_eq_false; set_solver.
Qed.

Lemma grouped_cell_decompose (subrows : list JS.object) (j : nat) (cell : td) :
  concat (imap (subrow_cells (render this).1) subrows) !! j = Some cell →
  ∃ subrow, subrows !! (j / S n) = Some subrow ∧
            subrow_cells (render this).1 (j / S n) subrow !! (j mod S n) = Some cell.
Proof.
  pose proof (Nat.div_mod_eq j (S n)) as Hj.
  pose proof (Nat.mod_upper_bound j (S n) ltac:(done)) as Hk.
  intros Hcell. rewrite Hj, (Nat.mul_comm (S n)) in Hcell.
  subst n. rewrite <- (render_schema this) in Hcell, Hk.
  rewrite grouped_cell_lookup in Hcell by done.
  rewrite render_schema in Hcell.
  destruct (subrows !! (j / S (length (_schema this)))) as [subrow|]; [|done].
  eauto.
Qed.

Lemma rendered_cell_listener (i j : nat) (cell : td) :
  cell_at t i j = Some cell →
  onclick cell =
  match _data this !! i with
  | Some (Grouped _) => bool_decide (j mod S n = 0)
  | _ => false
  end.
Proof.
  intros [(subrows & Hrow & Hcell)|(Hrow & _ & Hlistener)]%rendered_cell_cases.
  - rewrite Hrow. apply grouped_cell_decompose in Hcell as (subrow & _ & Hcell).
    by apply subrow_cell_classes in Hcell as (_ & _ & _ & _ & ->).
  - rewrite Hlistener. destruct (_data this !! i) as [[row|subrows]|]; try done.
    by destruct (Hrow subrows).
Qed.

Lemma rendered_leading_cell (i : nat) (subrows : list JS.object) (m : nat) (subrow : JS.object) :
  _data this !! i = Some (Grouped subrows) → subrows !! m = Some subrow →
  cell_at t i (m * S n) =
  Some (Td (if bool_decide (m ≠ 0) then {[ "subrow"; "hidden" ]} else {[ "expander" ]})
           true Empty).
Proof.
  intros Hrow Hsub. subst t n. rewrite (rendered_grouped_cell_at _ _ _ _ Hrow).
  rewrite <- (Nat.add_0_r (m * _)), <- (render_schema this).
  rewrite grouped_cell_lookup by lia. by rewrite Hsub.
Qed.

(** X2. As rendered, the click listener is on the leading cell of every
    line of a grouped row, the first line and the later ones, and nowhere
    else: no cell of a plain row and not the informational cell of an
    empty dataset. *)
Theorem rendered_listeners (i j : nat) :
  (∀ cell, cell_at t i j = Some cell →
     onclick cell =
     match _data this !! i with
     | Some (Grouped _) => bool_decide (j mod S n = 0)
     | _ => false
     end) ∧
  (∀ subrows m, _data this !! i = Some (Grouped subrows) → m < length subrows →
     listening t i (m * S n) = true).
Proof.
  split; [apply rendered_cell_listener|].
  intros subrows m Hrow Hm.
  destruct (lookup_lt_is_Some_2 subrows m Hm) as [subrow Hsub].
  unfold listening. by rewrite (rendered_leading_cell _ _ _ _ Hrow Hsub).
Qed.

(** X3. As rendered, every grouped row is collapsed: of its cells exactly
    those of the first line are displayed; the cells of plain rows and the
    informational cell are displayed; and no cell carries [expanded]. *)
Theorem rendered_collapsed (i j : nat) (cell : td) :
  cell_at t i j = Some cell →
  has_class "expanded" cell = false ∧
  displayed cell =
  match _data this !! i with
  | Some (Grouped _) => bool_decide (j < S n)
  | _ => true
  end.
Proof.
  intros [(subrows & Hrow & Hcell)|(Hrow & Hcl & _)]%rendered_cell_cases.
  - rewrite Hrow. apply grouped_cell_classes in Hcell as (_ & Hhid & Hexp & _).
    rewrite render_schema in Hhid. split; [done|].
    unfold displayed. rewrite Hhid. subst n.
    destruct (bool_decide_reflect (S (length (_schema this)) ≤ j)%nat); simpl;
      symmetry; [apply bool_decide_eq_false | apply bool_decide_eq_true]; lia.
  - unfold displayed. rewrite !(has_class_plain _ _ Hcl) by done.
    split; [done|]. destruct (_data this !! i) as [[row|subrows]|]; try done.
    by destruct (Hrow subrows).
Qed.

End RenderMore.

(** ** More on clicks *)

Section ClickMore.

Implicit Types (cell : td) (row : list td) (t : table) (token : string).

Lemma click_listening i j t :
  click i j t =
  if listening t i j then with_tbody (alter (_handleToggleExpandClick j) i (tbody t)) t else t.
Proof.
  unfold click, listening, cell_at.
  by destruct (tbody t !! i ≫= (.!! j)) as [cell|].
Qed.

Lemma listening_click i j t i' j' : listening (click i' j' t) i j = listening t i j.
Proof.
  unfold listening. destruct (click_cell_at i' j' t i j) as (f & Hf & ->).
  destruct (cell_at t i j) as [cell|]; [|done]. simpl. by destruct (Hf cell) as (-> & _).
Qed.

Lemma listening_clicks events i j t : listening (clicks events t) i j = listening t i j.
Proof.
  unfold listening. destruct (clicks_cell_at events t i j) as (f & Hf & ->).
  destruct (cell_at t i j) as [cell|]; [|done]. simpl. by destruct (Hf cell) as (-> & _).
Qed.

Lemma has_subrow_on_cell target j cell :
  has_class "subrow" (on_cell target j cell) = has_class "subrow" cell.
Proof. by destruct (on_cell_evolves target j cell) as (_ & _ & -> & _). Qed.

Lemma on_cell_comm target target' j cell :
  on_cell target j (on_cell target' j cell) = on_cell target' j (on_cell target j cell).
Proof.
  unfold on_cell.
  destruct (bool_decide (j = target)), (bool_decide (j = target')),
    (has_class "subrow" cell) eqn:Hsub;
    repeat (rewrite ?has_class_toggle_class_ne by done; rewrite ?Hsub);
    repeat rewrite (toggle_class_comm "hidden" "expanded"); done.
Qed.

Lemma handler_comm target target' row :
  _handleToggleExpandClick target (_handleToggleExpandClick target' row) =
  _handleToggleExpandClick target' (_handleToggleExpandClick target row).
Proof.
  apply list_eq. intros j. rewrite !handler_lookup.
  destruct (row !! j); simpl; [|done]. by rewrite on_cell_comm.
Qed.

Lemma alter_handler_comm i j i' j' (rows : list (list td)) :
  alter (_handleToggleExpandClick j) i (alter (_handleToggleExpandClick j') i' rows) =
  alter (_handleToggleExpandClick j') i' (alter (_handleToggleExpandClick j) i rows).
Proof.
  apply list_eq. intros k.
  destruct (decide (i = k)) as [->|Hi], (decide (i' = k)) as [->|Hi'];
    rewrite ?list_lookup_alter_eq, ?list_lookup_alter_ne by done;
    rewrite ?list_lookup_alter_eq, ?list_lookup_alter_ne by done; try done.
  destruct (rows !! k); simpl; [|done]. by rewrite handler_comm.
Qed.

Lemma click_comm i j i' j' t :
  click i j (click i' j' t) = click i' j' (click i j t).
Proof.
  rewrite (click_listening i j), (click_listening i' j' (click i j t)).
  rewrite !listening_click. rewrite !click_listening.
  destruct (listening t i j), (listening t i' j'); try done.
  unfold with_tbody. simpl. by rewrite alter_handler_comm.
Qed.

End ClickMore.

(** X4. The order of clicks does not matter: two sequences holding the
    same clicks the same number of times leave the table in the same
    state. *)
Theorem clicks_permutation (events events' : list (nat * nat)) (t : table) :
  events ≡ₚ events' → clicks events t = clicks events' t.
Proof.
  intros Hperm. revert t.
  induction Hperm as [|e es es' _ IH|e e' es|es es' es'' _ IH _ IH']; intros t.
  - done.
  - simpl. apply IH.
  - simpl. by rewrite click_comm.
  - by rewrite IH.
Qed.

Lemma clicks_permutation_witness :
  clicks [(1, 0); (1, 2); (1, 0)] (render example).2 =
  clicks [(1, 2); (1, 0); (1, 0)] (render example).2.
Proof.
  apply clicks_permutation.
  change ([(1, 0)] ++ [(1, 2)] ++ [(1, 0)] ≡ₚ [(1, 2)] ++ [(1, 0)] ++ [(1, 0)]).
  apply (Permutation_app_swap_app [(1, 0)] [(1, 2)] [(1, 0)]).
Defined.

Section Preserved.

Context {B : Type} (g : td → B).
Hypothesis g_toggle : ∀ token cell,
  token = "hidden" ∨ token = "expanded" → g (toggle_class token cell) = g cell.

Lemma g_on_cell target j cell : g (on_cell target j cell) = g cell.
Proof.
  unfold on_cell.
  destruct (bool_decide (j = target)), (has_class "subrow" cell);
    rewrite ?g_toggle by auto; done.
Qed.

Lemma g_handler target row :
  map g (_handleToggleExpandClick target row) = map g row.
Proof.
  apply list_eq. intros j. rewrite !list_lookup_fmap, handler_lookup.
  destruct (row !! j); simpl; [|done]. by rewrite g_on_cell.
Qed.

Lemma g_click i j t : map (map g) (tbody (click i j t)) = map (map g) (tbody t).
Proof.
  rewrite click_tbody. destruct (cell_at t i j) as [cell|]; [|done].
  destruct (onclick cell); [|done].
  apply list_eq. intros k. rewrite !list_lookup_fmap.
  destruct (decide (i = k)) as [->|Hne].
  - rewrite list_lookup_alter_eq. destruct (tbody t !! k); simpl; [|done].
    by rewrite g_handler.
  - by rewrite list_lookup_alter_ne.
Qed.

Lemma g_clicks events t : map (map g) (tbody (clicks events t)) = map (map g) (tbody t).
Proof.
  revert t. induction events as [|[i j] events IH]; intros t; [done|].
  simpl. by rewrite IH, g_click.
Qed.

End Preserved.

Lemma clicks_thead events t : thead (clicks events t) = thead t.
Proof.
  revert t. induction events as [|[i j] events IH]; intros t; [done|].
  simpl. by rewrite IH, click_thead.
Qed.

Lemma clicks_tfoot events t : tfoot (clicks events t) = tfoot t.
Proof.
  revert t. induction events as [|[i j] events IH]; intros t; [done|].
  simpl. by rewrite IH, click_tfoot.
Qed.

(** X5. Clicks are presentation only: after any sequence of clicks the
    header, the footer, the number of rows and of cells, the child of
    every cell (the value it shows) and its listener are those of the
    table before. *)
Theorem clicks_preserve_content (events : list (nat * nat)) (t : table) :
  thead (clicks events t) = thead t ∧
  tfoot (clicks events t) = tfoot t ∧
  map (map child) (tbody (clicks events t)) = map (map child) (tbody t) ∧
  map (map onclick) (tbody (clicks events t)) = map (map onclick) (tbody t) ∧
  map length (tbody (clicks events t)) = map length (tbody t).
Proof.
  split; [apply clicks_thead|]. split; [apply clicks_tfoot|].
  split; [by apply g_clicks|]. split; [by apply g_clicks|].
  pose proof (g_clicks child ltac:(done) events t) as Hchild.
  apply (f_equal (map length)) in Hchild.
  rewrite <- !list_fmap_compose in Hchild.
  erewrite (list_fmap_ext _ length (tbody (clicks events t))) in Hchild
    by (intros; apply length_map).
  erewrite (list_fmap_ext _ length (tbody t)) in Hchild
    by (intros; apply length_map).
  done.
Qed.

(** X6. The handler touches no class but [hidden] and [expanded]: for any
    other token, every cell carries it after any sequence of clicks
    exactly when it carried it before. *)
Theorem clicks_preserve_other_classes
    (events : list (nat * nat)) (t : table) (token : string) :
  token ≠ "hidden" → token ≠ "expanded" →
  map (map (has_class token)) (tbody (clicks events t)) =
  map (map (has_class token)) (tbody t).
Proof.
  intros Hh He. apply g_clicks.
  intros token' cell [-> | ->]; by apply has_class_toggle_class_ne.
Qed.

Lemma clicks_preserve_other_classes_witness :
  map (map (has_class "expander"))
      (tbody (clicks [(1, 0); (1, 2)] (render example).2)) =
  map (map (has_class "expander")) (tbody (render example).2).
Proof.
  apply clicks_preserve_other_classes; discriminate.
Defined.

Section Reachable.

Variable this : ReactiveTable.
Variable events : list (nat * nat).

Let n : nat := length (_schema this).
Let t0 : table := (render this).2.
Let t : table := clicks events t0.

Lemma click_not_listening (i j : nat) : listening t0 i j = false → click i j t = t.
Proof.
  intros Hno. rewrite click_listening. subst t. by rewrite listening_clicks, Hno.
Qed.

(** X7. In every state the table can reach, a click changes nothing unless
    it lands on the leading cell of a line of a grouped row: clicks on the
    cells of a plain row, on the informational cell, on the value cells of
    a grouped row and outside the body are without effect. *)
Theorem click_without_listener (i j : nat) :
  ((∀ subrows, _data this !! i ≠ Some (Grouped subrows)) → click i j t = t) ∧
  (j mod S n ≠ 0 → click i j t = t).
Proof.
  split.
  - intros Hrow. apply click_not_listening. unfold listening.
    destruct (cell_at t0 i j) as [cell|] eqn:Hcell; [|done]. simpl.
    rewrite (rendered_cell_listener _ _ _ _ Hcell).
    destruct (_data this !! i) as [[row|subrows]|]; try done. by destruct (Hrow subrows).
  - intros Hj. apply click_not_listening. unfold listening.
    destruct (cell_at t0 i j) as [cell|] eqn:Hcell; [|done]. simpl.
    rewrite (rendered_cell_listener _ _ _ _ Hcell).
    destruct (_data this !! i) as [[row|subrows]|]; try done.
    by apply bool_decide_eq_false.
Qed.


Lemma hidden_together_click (i j : nat) (t' : table) :
  hidden_together t' → hidden_together (click i j t').
Proof.
  intros Hinv i' k k' cell cell'.
  destruct (decide (i' = i)) as [->|Hne].
  - rewrite !cell_at_click.
    destruct (cell_at t' i j) as [target|]; [|by apply Hinv].
    destruct (onclick target); [|by apply Hinv].
    destruct (cell_at t' i k) as [c|] eqn:Hc; [|done].
    destruct (cell_at t' i k') as [c'|] eqn:Hc'; [|done]. simpl.
    intros [= <-] [= <-]. rewrite !has_subrow_on_cell, !on_cell_hidden.
    intros Hsub Hsub'. rewrite Hsub, Hsub'. f_equal. by eapply Hinv.
  - unfold cell_at. rewrite !click_other_row by done. apply Hinv.
Qed.

Lemma hidden_together_clicks (events' : list (nat * nat)) (t' : table) :
  hidden_together t' → hidden_together (clicks events' t').
Proof.
  revert t'. induction events' as [|[i j] events' IH]; intros t' Hinv; [done|].
  simpl. by apply IH, hidden_together_click.
Qed.

Lemma rendered_subrow_hidden (i j : nat) (cell : td) :
  cell_at t0 i j = Some cell → has_class "subrow" cell = true →
  has_class "hidden" cell = true ∧ has_class "expanded" cell = false ∧ j ≠ 0 ∧
  ∃ subrows, _data this !! i = Some (Grouped subrows).
Proof.
  intros [(subrows & Hrow & Hcell)|(_ & Hcl & _)]%rendered_cell_cases Hsub.
  - apply grouped_cell_classes in Hcell as (Hs & Hh & He & _).
    rewrite Hsub in Hs. rewrite Hh, <- Hs. repeat split; [done| |by eauto].
    symmetry in Hs. apply bool_decide_eq_true in Hs. lia.
  - by rewrite (has_class_plain _ _ Hcl) in Hsub.
Qed.

(** X8. A row is never half expanded: in every state the table can reach,
    by clicks on any cells, the cells marked [subrow] of one row are all
    hidden or all displayed. *)
Theorem subrows_hidden_together (i j j' : nat) (cell cell' : td) :
  cell_at t i j = Some cell → cell_at t i j' = Some cell' →
  has_class "subrow" cell = true → has_class "subrow" cell' = true →
  displayed cell = displayed cell'.
Proof.
  intros Hcell Hcell' Hsub Hsub'. unfold displayed. f_equal.
  revert Hcell Hcell' Hsub Hsub'. apply hidden_together_clicks.
  intros i0 k k' c c' Hc Hc' Hs Hs'.
  destruct (rendered_subrow_hidden _ _ _ Hc Hs) as (-> & _).
  by destruct (rendered_subrow_hidden _ _ _ Hc' Hs') as (-> & _).
Qed.

Lemma icon_agrees_click (i : nat) (t' : table) :
  icon_agrees t' → icon_agrees (click i 0 t').
Proof.
  intros Hinv i' k first cell.
  destruct (decide (i' = i)) as [->|Hne].
  - rewrite !cell_at_click.
    destruct (cell_at t' i 0) as [target|] eqn:Htarget; [|done].
    destruct (onclick target);
      [|intros [= <-] Hc Hs; exact (Hinv _ _ _ _ Htarget Hc Hs)].
    simpl.
    destruct (cell_at t' i k) as [c|] eqn:Hc; [|done]. simpl.
    intros [= <-] [= <-]. rewrite !has_subrow_on_cell. intros Hsub.
    destruct (Hinv _ _ _ _ Htarget Hc Hsub) as [Hfirst Hicon].
    split; [done|]. unfold displayed in *.
    rewrite on_cell_expanded, on_cell_hidden, Hsub, Hicon. done.
  - unfold cell_at. rewrite !click_other_row by done. apply Hinv.
Qed.

Lemma icon_agrees_rendered : icon_agrees t0.
Proof.
  intros i j first cell Hfirst Hcell Hsub.
  destruct (rendered_subrow_hidden _ _ _ Hcell Hsub) as (Hhid & _ & _ & subrows & Hrow).
  subst t0. rewrite (rendered_grouped_cell_at _ _ _ _ Hrow) in Hfirst.
  apply grouped_cell_classes in Hfirst as (Hs & _ & He & _).
  unfold displayed. rewrite Hhid, He. split; [|done].
  rewrite Hs. apply bool_decide_eq_false. lia.
Qed.

(** X9. As long as every click goes to the first cell of a row, the icon
    tells the truth: in every state reached that way the expander of a
    grouped row carries [expanded] exactly when the cells marked [subrow]
    of its row are displayed. *)
Theorem expander_icon_agrees (i j : nat) (first cell : td) :
  Forall (λ e, e.2 = 0) events →
  cell_at t i 0 = Some first → cell_at t i j = Some cell →
  has_class "subrow" cell = true →
  has_class "expanded" first = displayed cell.
Proof.
  intros Hevents Hfirst Hcell Hsub.
  enough (icon_agrees t) as Hinv by (by destruct (Hinv _ _ _ _ Hfirst Hcell Hsub)).
  clear Hfirst Hcell Hsub. subst t. generalize icon_agrees_rendered.
  generalize t0. clear t0. induction Hevents as [|[i' j'] es Hj _ IH]; intros t' Hinv; [done|].
  simpl in *. subst j'. by apply IH, icon_agrees_click.
Qed.

End Reachable.

Lemma click_without_listener_witness :
  click 0 1 (clicks [(1, 0)] (render example).2) = clicks [(1, 0)] (render example).2 ∧
  click 1 3 (clicks [(1, 0)] (render example).2) = clicks [(1, 0)] (render example).2.
Proof.
  split.
  - apply (click_without_listener example [(1, 0)] 0 1). intros subrows. discriminate.
  - apply (click_without_listener example [(1, 0)] 1 3). simpl. lia.
Defined.

Lemma subrows_hidden_together_witness :
  ∃ cell cell',
    cell_at (clicks [(1, 0); (1, 2)] (render two_groups).2) 1 2 = Some cell ∧
    cell_at (clicks [(1, 0); (1, 2)] (render two_groups).2) 1 3 = Some cell' ∧
    displayed cell = displayed cell'.
Proof.
  eexists _, _. split; [reflexivity|]. split; [reflexivity|].
  apply (subrows_hidden_together two_groups [(1, 0); (1, 2)] 1 2 3); reflexivity.
Defined.

Lemma expander_icon_agrees_witness :
  ∃ first cell,
    cell_at (clicks [(0, 0); (1, 0); (0, 0)] (render two_groups).2) 1 0 = Some first ∧
    cell_at (clicks [(0, 0); (1, 0); (0, 0)] (render two_groups).2) 1 3 = Some cell ∧
    has_class "expanded" first = displayed cell.
Proof.
  eexists _, _. split; [reflexivity|]. split; [reflexivity|].
  apply (expander_icon_agrees two_groups [(0, 0); (1, 0); (0, 0)] 1 3);
    [repeat constructor | reflexivity | reflexivity | reflexivity].
Defined.

Lemma cell_at_click_listening (i j j' : nat) (t : table) :
  listening t i j = true → cell_at (click i j t) i j' = on_cell j j' <$> cell_at t i j'.
Proof.
  unfold listening. rewrite cell_at_click.
  destruct (cell_at t i j) as [cell|]; [|done]. simpl. by intros ->.
Qed.

(** X10. The listener on the markers at work, for any grouped row: after
    one click on the expander the leading cell of every later line is
    displayed and listens; a click on it hides every cell marked [subrow]
    of the row again, while the expander keeps [expanded]. *)
Theorem marker_click_collapses
    (this : ReactiveTable) (i : nat) (subrows : list JS.object) (m : nat) :
  _data this !! i = Some (Grouped subrows) → 0 < m → m < length subrows →
  let marker_at := m * S (length (_schema this)) in
  let expanded := click i 0 (render this).2 in
  let after := click i marker_at expanded in
  (∃ marker, cell_at expanded i marker_at = Some marker ∧ child marker = Empty ∧
             onclick marker = true ∧ displayed marker = true) ∧
  (∀ j cell, cell_at after i j = Some cell → has_class "subrow" cell = true →
             displayed cell = false) ∧
  (∃ first, cell_at after i 0 = Some first ∧ has_class "expander" first = true ∧
            has_class "expanded" first = true).
Proof.
  intros Hrow Hm Hlen marker_at expanded after.
  set (t0 := (render this).2) in *.
  pose proof (rendered_grouped_cell_at this i subrows) as Hat.
  pose proof (grouped_cell_classes (render this).1 subrows) as Hclasses.
  rewrite render_schema in Hclasses.
  destruct (lookup_lt_is_Some_2 subrows 0 ltac:(lia)) as [subrow0 Hsub0].
  destruct (lookup_lt_is_Some_2 subrows m Hlen) as [subrowm Hsubm].
  assert (cell_at t0 i 0 = Some (Td {[ "expander" ]} true Empty)) as Hfirst.
  { exact (rendered_leading_cell this i subrows 0 subrow0 Hrow Hsub0). }
  assert (cell_at t0 i marker_at = Some (Td {[ "subrow"; "hidden" ]} true Empty)) as Hmarker.
  { subst t0 marker_at. rewrite (rendered_leading_cell this i subrows m subrowm Hrow Hsubm).
    by rewrite bool_decide_eq_true_2 by lia. }
  assert (listening t0 i 0 = true) as Hl0 by (unfold listening; by rewrite Hfirst).
  assert (listening expanded i marker_at = true) as Hlm.
  { subst expanded. rewrite listening_click. unfold listening. by rewrite Hmarker. }
  assert (marker_at ≠ 0) as Hne by (subst marker_at; lia).
  split; [|split].
  - subst expanded. rewrite (cell_at_click_listening _ _ _ _ Hl0), Hmarker. simpl.
    eexists. split; [done|]. unfold on_cell.
    rewrite bool_decide_eq_false_2 by done. by vm_compute.
  - intros j cell. subst after expanded.
    rewrite (cell_at_click_listening _ _ _ _ Hlm), (cell_at_click_listening _ _ _ _ Hl0).
    destruct (cell_at t0 i j) as [c0|] eqn:Hc0; [|done]. simpl. intros [= <-].
    rewrite !has_subrow_on_cell. intros Hsub.
    subst t0. rewrite (Hat _ Hrow) in Hc0. apply Hclasses in Hc0 as (Hs & Hh & _).
    unfold displayed. rewrite !on_cell_hidden, has_subrow_on_cell, Hsub, Hh, <- Hs, Hsub. done.
  - subst after expanded.
    rewrite (cell_at_click_listening _ _ _ _ Hlm), (cell_at_click_listening _ _ _ _ Hl0).
    rewrite Hfirst. simpl. eexists. split; [done|].
    rewrite !on_cell_expander, !on_cell_expanded.
    rewrite (bool_decide_eq_false_2 (0 = marker_at)) by done. by vm_compute.
Qed.

Lemma marker_click_collapses_witness :
  ∃ first, cell_at (click 1 2 (click 1 0 (render example).2)) 1 0 = Some first ∧
           has_class "expander" first = true ∧ has_class "expanded" first = true.
Proof.
  destruct (marker_click_collapses example 1 _ 1 eq_refl) as (_ & _ & Hfirst);
    [lia | simpl; lia | exact Hfirst].
Defined.

(** ** More on the inputs *)

(** X11. An update can be repeated: running [willUpdate] once more with the
    same set of changed properties on the element it left gives the same
    element, the same parses and the same outcome. *)
Theorem willUpdate_idempotent (changed : gset string) (this : Parser.properties) :
  Parser.willUpdate changed (Parser.this_after (Parser.willUpdate changed this)) =
  Parser.willUpdate changed this.
Proof.
  unfold Parser.willUpdate.
  destruct (bool_decide ("data" ∈ changed) && truthy (Parser.data this)) eqn:Hd;
    [destruct (JSON.parse (Parser.text (Parser.data this))) eqn:Hpd|]; simpl;
    (destruct (bool_decide ("schema" ∈ changed) && truthy (Parser.schema this)) eqn:Hs;
      [destruct (JSON.parse (Parser.text (Parser.schema this))) eqn:Hps|]); simpl;
    rewrite ?Hd, ?Hpd; simpl; rewrite ?Hs, ?Hps; simpl; try done.
Qed.

(** X12. What a cell shows, in terms of the members of the row.  A member
    that is not [null] is shown as it is, [false], [0] and the empty string
    included; a member that is [null] gives the column default; so does a
    missing member, unless the key names a member of [Object.prototype],
    which is then what the cell is bound to. *)
Theorem cell_value_by_member (row : JS.object) (c : column) :
  (∀ v, own row (key c) = Some v → v ≠ JNull → cell_value row c = of_json v) ∧
  (own row (key c) = Some JNull → cell_value row c = default c) ∧
  (own row (key c) = None → key c ∉ Object_prototype → cell_value row c = default c) ∧
  (own row (key c) = None → key c ∈ Object_prototype →
   cell_value row c = inherited (key c)).
Proof.
  unfold cell_value, coalesce, get. repeat split.
  - intros v -> Hv. by destruct v.
  - by intros ->.
  - intros -> Hk. by rewrite bool_decide_eq_false_2.
  - intros -> Hk. by rewrite bool_decide_eq_true_2.
Qed.

Lemma cell_value_by_member_witness :
  cell_value [("a", JBool false)] (Column "a" "A" (of_json (JStr "-"))) =
    of_json (JBool false) ∧
  cell_value [("a", JNull)] (Column "a" "A" (of_json (JStr "-"))) = of_json (JStr "-") ∧
  cell_value [] (Column "a" "A" (of_json (JStr "-"))) = of_json (JStr "-") ∧
  cell_value [] (Column "toString" "T" (of_json (JStr "-"))) = inherited "toString".
Proof.
  destruct (cell_value_by_member [("a", JBool false)] (Column "a" "A" (of_json (JStr "-"))))
    as (Hmember & _).
  destruct (cell_value_by_member [("a", JNull)] (Column "a" "A" (of_json (JStr "-"))))
    as (_ & Hnull & _).
  destruct (cell_value_by_member [] (Column "a" "A" (of_json (JStr "-"))))
    as (_ & _ & Hmissing & _).
  destruct (cell_value_by_member [] (Column "toString" "T" (of_json (JStr "-"))))
    as (_ & _ & _ & Hinherited).
  split; [|split; [|split]].
  - apply (Hmember (JBool false)); [reflexivity | discriminate].
  - apply Hnull. reflexivity.
  - apply Hmissing; [reflexivity|]. apply (bool_decide_eq_false_1 _). reflexivity.
  - apply Hinherited; [reflexivity|]. apply (bool_decide_eq_true_1 _). reflexivity.
Defined.

Lemma render_depends_on_parsed_witness :
  render (Element example_data example_schema true "none") = render example.
Proof. exact (proj1 (render_depends_on_parsed example) _ eq_refl eq_refl). Defined.

Lemma rendered_listeners_witness :
  (∃ cell, cell_at (render example).2 1 2 = Some cell ∧ onclick cell = true) ∧
  listening (render example).2 1 2 = true.
Proof.
  destruct (rendered_listeners example 1 2) as [Hcell Hleading]. split.
  - eexists. split; [reflexivity|]. apply (Hcell _ eq_refl).
  - apply (Hleading _ 1 eq_refl). simpl. lia.
Defined.

Lemma rendered_collapsed_witness :
  ∃ cell, cell_at (render example).2 1 3 = Some cell ∧ displayed cell = false.
Proof.
  eexists. split; [reflexivity|].
  apply (rendered_collapsed example 1 3 _ eq_refl).
Defined.

(** ** Rows at the edge *)

Lemma clicks_row_lengths (events : list (nat * nat)) (t : table) (i : nat) :
  length <$> tbody (clicks events t) !! i = length <$> tbody t !! i.
Proof.
  pose proof (g_clicks child ltac:(done) events t) as Hchild.
  apply (f_equal (λ rows, length <$> rows !! i)) in Hchild.
  rewrite !list_lookup_fmap in Hchild.
  destruct (tbody (clicks events t) !! i) as [row'|], (tbody t !! i) as [row|];
    simpl in *; try done.
  by rewrite !length_map in Hchild.
Qed.

Section EdgeRows.

Variable this : ReactiveTable.
Variable i : nat.

Let n : nat := length (_schema this).
Let t0 : table := (render this).2.

(** X13. A grouped row with a single subrow has nothing to expand: after
    any sequence of clicks it has the [1 + |schema|] cells of its one line
    and all of them are displayed. *)
Theorem single_subrow_always_displayed (subrow : JS.object) (events : list (nat * nat)) :
  _data this !! i = Some (Grouped [subrow]) →
  length <$> tbody (clicks events t0) !! i = Some (S n) ∧
  ∀ j cell, cell_at (clicks events t0) i j = Some cell → displayed cell = true.
Proof.
  intros Hrow. split.
  - rewrite clicks_row_lengths. subst t0. rewrite (tbody_lookup _ _ _ Hrow).
    unfold row_cells.
    rewrite (fmap_Some_2 _ _ _ eq_refl).
    rewrite (length_concat_uniform _ _ (Forall_length_subrow_cells _ _)).
    by rewrite length_imap, render_schema, Nat.mul_1_l.
  - intros j cell.
    destruct (clicks_cell_at events t0 i j) as (f & Hf & ->).
    subst t0. rewrite (rendered_grouped_cell_at _ _ _ _ Hrow).
    destruct (concat (imap (subrow_cells (render this).1) [subrow]) !! j) as [cell0|] eqn:Hcell0;
      [|done].
    simpl. intros [= <-].
    pose proof (lookup_lt_Some _ _ _ Hcell0) as Hj.
    rewrite (length_concat_uniform _ _ (Forall_length_subrow_cells _ _)) in Hj.
    rewrite length_imap, render_schema in Hj. cbn [length] in Hj.
    apply grouped_cell_classes in Hcell0 as (Hsub & Hhid & _).
    rewrite render_schema in Hsub, Hhid.
    rewrite bool_decide_eq_false_2 in Hsub, Hhid by lia.
    destruct (Hf cell0) as (_ & _ & _ & Hhid').
    unfold displayed. by rewrite Hhid', Hhid.
Qed.

(** X14. An empty array as a row is a grouped row all the same: its row of
    the body has no cell at all, not even an expander, while the header
    gets its leading empty cell and every plain row its leading cell. *)
Theorem empty_grouped_row :
  _data this !! i = Some (Grouped []) →
  tbody t0 !! i = Some [] ∧
  hasHiddenRows (render this).1 = true ∧
  thead t0 !! 0 = Some Empty ∧
  ∀ k row, _data this !! k = Some (Plain row) →
           cell_at t0 k 0 = Some (Td ∅ false Empty).
Proof.
  intros Hrow.
  assert (hasHiddenRows (render this).1 = true) as Hhas.
  { rewrite render_hasHiddenRows. apply existsb_exists. exists (Grouped []).
    split; [|done]. apply list_elem_of_In. by eapply list_elem_of_lookup_2. }
  split; [|split; [done|split]].
  - subst t0. by rewrite (tbody_lookup _ _ _ Hrow).
  - subst t0. rewrite render_thead. unfold _getHeaders. by rewrite Hhas.
  - intros k row Hplain. unfold cell_at. subst t0.
    rewrite (tbody_lookup _ _ _ Hplain). unfold row_cells. by rewrite Hhas.
Qed.

End EdgeRows.

Lemma single_subrow_always_displayed_witness :
  ∃ cell,
    cell_at (clicks [(0, 0); (0, 0); (0, 0)]
               (render (Element [Grouped [[("a", JNum "1")]]] example_schema false "none")).2)
            0 1 = Some cell ∧
    displayed cell = true.
Proof.
  eexists. split; [reflexivity|].
  apply (proj2 (single_subrow_always_displayed
                  (Element [Grouped [[("a", JNum "1")]]] example_schema false "none")
                  0 _ [(0, 0); (0, 0); (0, 0)] eq_refl) 1 _ eq_refl).
Defined.

Lemma empty_grouped_row_witness :
  tbody (render (Element [Plain []; Grouped []] example_schema false "none")).2 !! 1 = Some [] ∧
  cell_at (render (Element [Plain []; Grouped []] example_schema false "none")).2 0 0 =
  Some (Td ∅ false Empty).
Proof.
  destruct (empty_grouped_row
              (Element [Plain []; Grouped []] example_schema false "none") 1 eq_refl)
    as (Hempty & _ & _ & Hplain).
  split; [exact Hempty|]. exact (Hplain 0 [] eq_refl).
Defined.
